(** * Daily Motivation Dashboard: the quote / like / persist data flow

    A shallow embedding of [src/App.jsx].  The component's state hooks become
    a record, its event handlers become functions on that record, and the
    browser (localStorage, fetch, JSON) becomes explicit input: a storage
    value, the outcome of the network request, and the two JSON built-ins
    written out after ECMA-262. *)

From stdpp Require Import base option numbers list strings gmap sets.

#[local] Set Warnings "-register-all".

(** ** JavaScript strings

    A JS string is a sequence of UTF-16 code units.  Source literals are
    ASCII and are written with [jstr]. *)

Abbreviation JsString := (list N).

Definition jstr (s : string) : JsString :=
  (λ a, Ascii.N_of_ascii a) <$> String.list_ascii_of_string s.

(** [x || d] where [x] is a string or null: the empty string is falsy. *)
Definition or_else (x : option JsString) (d : JsString) : JsString :=
  match x with
  | Some (c :: r) => c :: r
  | _ => d
  end.

(** ** JavaScript numbers

    Numbers are binary64 floats.  The code never computes with the numbers it
    receives: it only prints them ([String(data.id)], [JSON.stringify]) and
    reads them ([JSON.parse]), so the three platform functions it relies on
    are an interface, and every result below holds for any implementation. *)

Class JsNumbers := {
  number : Type;
  (** Number::toString(x), radix 10 *)
  Number_toString : number → JsString;
  (** false on NaN, +Infinity and -Infinity *)
  Number_isFinite : number → bool;
  (** the number denoted by a JSON numeral *)
  Number_ofNumeral : JsString → number;
}.

(** What a reader of JSON text returns: a value and the text after it, the
    SyntaxError of a text that is not JSON, or the end of its fuel. *)
Inductive parse_result (A : Type) :=
| Parsed (a : A) (rest : JsString)
| SyntaxError
| OutOfFuel.
Arguments Parsed {A} a rest.
Arguments SyntaxError {A}.
Arguments OutOfFuel {A}.

(** How a decoded unit is put in front of the rest of the string. *)
Definition cons_unit (c : N) (p : option (JsString * JsString))
  : option (JsString * JsString) :=
  match p with
  | Some (t, rest) => Some (c :: t, rest)
  | None => None
  end.

Section App.
Context `{!JsNumbers}.

(** ** Values: what [JSON.parse] can produce, and [undefined] *)

Inductive JsVal :=
| JUndefined
| JNull
| JBool (b : bool)
| JNum (n : number)
| JStr (s : JsString)
| JArr (elems : list JsVal)
| JObj (props : list (JsString * JsVal)).

(** Own property of a plain object; keys of [props] are distinct. *)
Fixpoint own_prop (k : JsString) (props : list (JsString * JsVal)) : option JsVal :=
  match props with
  | [] => None
  | (k', v) :: rest => if decide (k' = k) then Some v else own_prop k rest
  end.

(** [v.k] for the property names the component reads ([id], [quote],
    [author]), none of which lives on a built-in prototype.  [None] is the
    TypeError raised on [null] and [undefined]. *)
Definition get_prop (v : JsVal) (k : JsString) : option JsVal :=
  match v with
  | JUndefined | JNull => None
  | JObj props => Some (default JUndefined (own_prop k props))
  | _ => Some JUndefined
  end.

(** The parts separated by commas. *)
Fixpoint join_comma (parts : list JsString) : JsString :=
  match parts with
  | [] => []
  | p :: rest =>
      match rest with
      | [] => p
      | _ :: _ => p ++ 44%N :: join_comma rest
      end
  end.

(** [String(v)].  An array prints its elements joined by commas, with
    [null] and [undefined] elements printed as nothing.  A plain object
    prints as [[object Object]], unless it has an own [toString] property:
    that property is data, not a function, and ToPrimitive then raises a
    TypeError ([None]). *)
Fixpoint js_String (v : JsVal) : option JsString :=
  match v with
  | JUndefined => Some (jstr "undefined")
  | JNull => Some (jstr "null")
  | JBool true => Some (jstr "true")
  | JBool false => Some (jstr "false")
  | JNum n => Some (Number_toString n)
  | JStr s => Some s
  | JArr elems =>
      join_comma <$>
        (fix each (l : list JsVal) : option (list JsString) :=
           match l with
           | [] => Some []
           | x :: rest =>
               let elem := match x with
                           | JUndefined | JNull => Some []
                           | _ => js_String x
                           end in
               match elem, each rest with
               | Some s, Some t => Some (s :: t)
               | _, _ => None
               end
           end) elems
  | JObj props =>
      match own_prop (jstr "toString") props with
      | Some _ => None
      | None => Some (jstr "[object Object]")
      end
  end.

(** ** [JSON.stringify(v)] (ECMA-262, SerializeJSONProperty, no indent) *)

Definition hex_digit (n : N) : N :=
  if (n <? 10)%N then (48 + n)%N else (87 + n)%N.

(** UnicodeEscape: a backslash, [u] and four lower-case hex digits. *)
Definition unicode_escape (c : N) : JsString :=
  [92%N; 117%N;
   hex_digit ((c / 4096) `mod` 16)%N; hex_digit ((c / 256) `mod` 16)%N;
   hex_digit ((c / 16) `mod` 16)%N; hex_digit (c `mod` 16)%N].

Definition is_high_surrogate (c : N) : bool := (55296 <=? c)%N && (c <=? 56319)%N.
Definition is_low_surrogate (c : N) : bool := (56320 <=? c)%N && (c <=? 57343)%N.

(** One code unit that is not part of a surrogate pair. *)
Definition quote_unit (c : N) : JsString :=
  if (c =? 8)%N then [92%N; 98%N]
  else if (c =? 9)%N then [92%N; 116%N]
  else if (c =? 10)%N then [92%N; 110%N]
  else if (c =? 12)%N then [92%N; 102%N]
  else if (c =? 13)%N then [92%N; 114%N]
  else if (c =? 34)%N then [92%N; 34%N]
  else if (c =? 92)%N then [92%N; 92%N]
  else if (c <? 32)%N || is_high_surrogate c || is_low_surrogate c
       then unicode_escape c
  else [c].

(** QuoteJSONString without the enclosing quotes: a well-formed surrogate
    pair is copied, a lone surrogate is escaped. *)
Fixpoint quote_units (s : JsString) : JsString :=
  match s with
  | [] => []
  | c :: r =>
      match r with
      | d :: r' =>
          if is_high_surrogate c && is_low_surrogate d
          then c :: d :: quote_units r'
          else quote_unit c ++ quote_units r
      | [] => quote_unit c
      end
  end.

Definition QuoteJSONString (s : JsString) : JsString :=
  34%N :: quote_units s ++ [34%N].

(** [None] is the result [undefined]: the value has no JSON text. *)
Fixpoint JSON_stringify (v : JsVal) : option JsString :=
  match v with
  | JUndefined => None
  | JNull => Some (jstr "null")
  | JBool true => Some (jstr "true")
  | JBool false => Some (jstr "false")
  | JNum n => Some (if Number_isFinite n then Number_toString n else jstr "null")
  | JStr s => Some (QuoteJSONString s)
  | JArr elems =>
      Some (91%N :: join_comma
              ((fix items (l : list JsVal) : list JsString :=
                  match l with
                  | [] => []
                  | x :: rest => default (jstr "null") (JSON_stringify x) :: items rest
                  end) elems) ++ [93%N])
  | JObj props =>
      Some (123%N :: join_comma
              ((fix members (l : list (JsString * JsVal)) : list JsString :=
                  match l with
                  | [] => []
                  | (k, x) :: rest =>
                      match JSON_stringify x with
                      | Some t => (QuoteJSONString k ++ 58%N :: t) :: members rest
                      | None => members rest
                      end
                  end) props) ++ [125%N])
  end.

(** The text of an array element. *)
Definition json_text (v : JsVal) : JsString :=
  default (jstr "null") (JSON_stringify v).

(** ** [JSON.parse(text)] (ECMA-262, the JSON grammar of ECMA-404) *)

Definition is_ws (c : N) : bool :=
  (c =? 32)%N || (c =? 9)%N || (c =? 10)%N || (c =? 13)%N.

Fixpoint skip_ws (s : JsString) : JsString :=
  match s with
  | c :: r => if is_ws c then skip_ws r else s
  | [] => []
  end.

Definition hex_value (c : N) : option N :=
  if (48 <=? c)%N && (c <=? 57)%N then Some (c - 48)%N
  else if (97 <=? c)%N && (c <=? 102)%N then Some (c - 87)%N
  else if (65 <=? c)%N && (c <=? 70)%N then Some (c - 55)%N
  else None.

Definition hex4 (a b c d : N) : option N :=
  match hex_value a, hex_value b, hex_value c, hex_value d with
  | Some x, Some y, Some z, Some w => Some (x * 4096 + y * 256 + z * 16 + w)%N
  | _, _, _, _ => None
  end.

(** The character after a backslash, [u] apart. *)
Definition simple_escape (e : N) : option N :=
  if (e =? 34)%N then Some 34%N
  else if (e =? 92)%N then Some 92%N
  else if (e =? 47)%N then Some 47%N
  else if (e =? 98)%N then Some 8%N
  else if (e =? 102)%N then Some 12%N
  else if (e =? 110)%N then Some 10%N
  else if (e =? 114)%N then Some 13%N
  else if (e =? 116)%N then Some 9%N
  else None.

(** A string after its opening quote: the decoded units and what follows
    the closing quote. *)
Fixpoint parse_string_body (s : JsString) : option (JsString * JsString) :=
  match s with
  | [] => None
  | c :: r =>
      if (c =? 34)%N then Some ([], r)
      else if (c =? 92)%N then
        match r with
        | [] => None
        | e :: r1 =>
            if (e =? 117)%N then
              match r1 with
              | h1 :: h2 :: h3 :: h4 :: r2 =>
                  match hex4 h1 h2 h3 h4, parse_string_body r2 with
                  | Some u, Some (t, rest) => Some (u :: t, rest)
                  | _, _ => None
                  end
              | _ => None
              end
            else
              match simple_escape e, parse_string_body r1 with
              | Some u, Some (t, rest) => Some (u :: t, rest)
              | _, _ => None
              end
        end
      else if (c <? 32)%N then None
      else
        match parse_string_body r with
        | Some (t, rest) => Some (c :: t, rest)
        | None => None
        end
  end.

Definition is_digit (c : N) : bool := (48 <=? c)%N && (c <=? 57)%N.

Fixpoint scan_digits (s : JsString) : JsString * JsString :=
  match s with
  | c :: r =>
      if is_digit c then let '(d, rest) := scan_digits r in (c :: d, rest)
      else ([], s)
  | [] => ([], [])
  end.

(** [0], or a non-zero digit followed by digits. *)
Definition scan_int (s : JsString) : option (JsString * JsString) :=
  match s with
  | c :: r =>
      if (c =? 48)%N then Some ([c], r)
      else if is_digit c then let '(d, rest) := scan_digits r in Some (c :: d, rest)
      else None
  | [] => None
  end.

(** An optional fraction: a dot and at least one digit. *)
Definition scan_frac (s : JsString) : option (JsString * JsString) :=
  match s with
  | c :: r =>
      if (c =? 46)%N then
        match scan_digits r with
        | ([], _) => None
        | (d, rest) => Some (c :: d, rest)
        end
      else Some ([], s)
  | [] => Some ([], [])
  end.

(** An optional exponent: [e] or [E], an optional sign, at least one digit. *)
Definition scan_exp (s : JsString) : option (JsString * JsString) :=
  match s with
  | c :: r =>
      if (c =? 101)%N || (c =? 69)%N then
        let '(sign, r1) :=
          match r with
          | x :: r' => if (x =? 43)%N || (x =? 45)%N then ([x], r') else ([], r)
          | [] => ([], [])
          end in
        match scan_digits r1 with
        | ([], _) => None
        | (d, rest) => Some (c :: sign ++ d, rest)
        end
      else Some ([], s)
  | [] => Some ([], [])
  end.

(** The longest numeral at the head of [s], and what follows it. *)
Definition scan_numeral (s : JsString) : option (JsString * JsString) :=
  let '(sign, r0) :=
    match s with
    | c :: r => if (c =? 45)%N then ([c], r) else ([], s)
    | [] => ([], [])
    end in
  match scan_int r0 with
  | None => None
  | Some (i, r1) =>
      match scan_frac r1 with
      | None => None
      | Some (f, r2) =>
          match scan_exp r2 with
          | None => None
          | Some (e, r3) => Some (sign ++ i ++ f ++ e, r3)
          end
      end
  end.

Fixpoint strip_prefix (p s : JsString) : option JsString :=
  match p, s with
  | [], _ => Some s
  | a :: p', b :: s' => if (a =? b)%N then strip_prefix p' s' else None
  | _ :: _, [] => None
  end.

(** *** Objects under construction

    [JSON.parse] defines the members in source order (CreateDataProperty): a
    repeated key keeps its place and takes the later value; keys that are
    array indices are enumerated first, in ascending order, the others in
    the order they were first defined. *)

Fixpoint digits_value (acc : N) (s : JsString) : N :=
  match s with
  | [] => acc
  | c :: r => digits_value (acc * 10 + (c - 48))%N r
  end.

(** A canonical numeric string below 2^32 - 1. *)
Definition array_index (k : JsString) : option N :=
  match k with
  | [] => None
  | c :: r =>
      if forallb is_digit k && (negb (c =? 48)%N || bool_decide (r = []))
      then let n := digits_value 0 k in
           if (n <? 4294967295)%N then Some n else None
      else None
  end.

Fixpoint replace_prop (k : JsString) (v : JsVal) (props : list (JsString * JsVal))
  : list (JsString * JsVal) :=
  match props with
  | [] => []
  | (k', v') :: rest =>
      if decide (k' = k) then (k, v) :: rest else (k', v') :: replace_prop k v rest
  end.

(** A new index key goes before the first key that is not a smaller index. *)
Fixpoint insert_index (i : N) (k : JsString) (v : JsVal) (props : list (JsString * JsVal))
  : list (JsString * JsVal) :=
  match props with
  | [] => [(k, v)]
  | (k', v') :: rest =>
      match array_index k' with
      | Some j => if (j <? i)%N then (k', v') :: insert_index i k v rest
                  else (k, v) :: props
      | None => (k, v) :: props
      end
  end.

Definition define_prop (props : list (JsString * JsVal)) (k : JsString) (v : JsVal)
  : list (JsString * JsVal) :=
  match own_prop k props with
  | Some _ => replace_prop k v props
  | None =>
      match array_index k with
      | Some i => insert_index i k v props
      | None => props ++ [(k, v)]
      end
  end.

(** *** The value grammar

    Recursive descent on the text.  Every call consumes a character before
    it recurses, so the fuel [2 * length text + 1] of [JSON_parse] never
    runs out ([parse_value_fuel] below). *)

Fixpoint parse_value (fuel : nat) (s : JsString) : parse_result JsVal :=
  match fuel with
  | O => OutOfFuel
  | S fuel =>
      match skip_ws s with
      | [] => SyntaxError
      | c :: r =>
          if (c =? 34)%N then
            match parse_string_body r with
            | Some (t, rest) => Parsed (JStr t) rest
            | None => SyntaxError
            end
          else if (c =? 91)%N then
            match skip_ws r with
            | d :: rest => if (d =? 93)%N then Parsed (JArr []) rest
                           else parse_elements fuel [] r
            | [] => SyntaxError
            end
          else if (c =? 123)%N then
            match skip_ws r with
            | d :: rest => if (d =? 125)%N then Parsed (JObj []) rest
                           else parse_members fuel [] r
            | [] => SyntaxError
            end
          else if (c =? 110)%N then
            match strip_prefix (jstr "null") (c :: r) with
            | Some rest => Parsed JNull rest
            | None => SyntaxError
            end
          else if (c =? 116)%N then
            match strip_prefix (jstr "true") (c :: r) with
            | Some rest => Parsed (JBool true) rest
            | None => SyntaxError
            end
          else if (c =? 102)%N then
            match strip_prefix (jstr "false") (c :: r) with
            | Some rest => Parsed (JBool false) rest
            | None => SyntaxError
            end
          else
            match scan_numeral (c :: r) with
            | Some (tok, rest) => Parsed (JNum (Number_ofNumeral tok)) rest
            | None => SyntaxError
            end
      end
  end

with parse_elements (fuel : nat) (acc : list JsVal) (s : JsString) : parse_result JsVal :=
  match fuel with
  | O => OutOfFuel
  | S fuel =>
      match parse_value fuel s with
      | Parsed v rest =>
          match skip_ws rest with
          | c :: rest' =>
              if (c =? 44)%N then parse_elements fuel (acc ++ [v]) rest'
              else if (c =? 93)%N then Parsed (JArr (acc ++ [v])) rest'
              else SyntaxError
          | [] => SyntaxError
          end
      | SyntaxError => SyntaxError
      | OutOfFuel => OutOfFuel
      end
  end

with parse_members (fuel : nat) (acc : list (JsString * JsVal)) (s : JsString)
  : parse_result JsVal :=
  match fuel with
  | O => OutOfFuel
  | S fuel =>
      match skip_ws s with
      | c :: r =>
          if (c =? 34)%N then
            match parse_string_body r with
            | Some (k, r1) =>
                match skip_ws r1 with
                | c1 :: r2 =>
                    if (c1 =? 58)%N then
                      match parse_value fuel r2 with
                      | Parsed v r3 =>
                          match skip_ws r3 with
                          | c3 :: r4 =>
                              if (c3 =? 44)%N
                              then parse_members fuel (define_prop acc k v) r4
                              else if (c3 =? 125)%N
                              then Parsed (JObj (define_prop acc k v)) r4
                              else SyntaxError
                          | [] => SyntaxError
                          end
                      | SyntaxError => SyntaxError
                      | OutOfFuel => OutOfFuel
                      end
                    else SyntaxError
                | [] => SyntaxError
                end
            | None => SyntaxError
            end
          else SyntaxError
      | [] => SyntaxError
      end
  end.

(** [None] is the SyntaxError that [JSON.parse] throws. *)
Definition JSON_parse (text : JsString) : option JsVal :=
  match parse_value (2 * length text + 1) text with
  | Parsed v rest => match skip_ws rest with [] => Some v | _ :: _ => None end
  | _ => None
  end.

(** ** localStorage

    Access can be blocked (every call throws), and a write can fail for lack
    of room: a value longer than [quota] code units is refused. *)

Record Storage := mkStorage {
  blocked : bool;
  quota : nat;
  items : gmap JsString JsString;
}.

(** The outer [None] is a thrown exception, the inner one is [null]. *)
Definition getItem (k : JsString) (st : Storage) : option (option JsString) :=
  if blocked st then None else Some (items st !! k).

(** [None] is a thrown exception; the storage is then unchanged. *)
Definition setItem (k v : JsString) (st : Storage) : option Storage :=
  if blocked st then None
  else if bool_decide (length v ≤ quota st)
  then Some (mkStorage (blocked st) (quota st) (<[k := v]> (items st)))
  else None.

Definition LS_KEY : JsString := jstr "likedQuotes_v2".
Definition THEME_KEY : JsString := jstr "theme_v1".

(** ** The component's data *)

Record Character := mkCharacter {
  name : JsString;
  img : JsString;
  vibe : JsString;
}.

Definition CHARACTERS : list Character :=
  [ mkCharacter (jstr "Goku") (jstr "/characters/goku.jpg") (jstr "Never Give Up");
    mkCharacter (jstr "Jinwoo") (jstr "/characters/jinwoo.jpg") (jstr "Level Up Mindset");
    mkCharacter (jstr "Saitama") (jstr "/characters/saitama.jpg") (jstr "Calm Power");
    mkCharacter (jstr "Gojo") (jstr "/characters/satorugojo.jpg") (jstr "Limitless Focus");
    mkCharacter (jstr "Tanjiro") (jstr "/characters/tanjiro.png") (jstr "Kind but Unbreakable") ].

(** The normalised quote [{ _id, content, author }].  [_id] is always a
    string (it is built with [String(...)]); [content] and [author] are
    whatever the remote source sent. *)
Record Quote := mkQuote {
  _id : JsString;
  content : JsVal;
  author : JsVal;
}.

(** The object literal [{ _id: ..., content: ..., author: ... }]. *)
Definition quote_val (q : Quote) : JsVal :=
  JObj [(jstr "_id", JStr (_id q)); (jstr "content", content q); (jstr "author", author q)].

(** The [likedQuotes] array as a JS value. *)
Definition quotes_val (L : list Quote) : JsVal := JArr (quote_val <$> L).

(** Reading [q._id], [q.content] and [q.author] off every element of an
    array; [None] when the value is not an array of objects with string ids. *)
Definition as_quote (v : JsVal) : option Quote :=
  match v with
  | JObj props =>
      match own_prop (jstr "_id") props with
      | Some (JStr i) =>
          Some (mkQuote i (default JUndefined (own_prop (jstr "content") props))
                          (default JUndefined (own_prop (jstr "author") props)))
      | _ => None
      end
  | _ => None
  end.

Definition as_quotes (v : JsVal) : option (list Quote) :=
  match v with
  | JArr elems => mapM as_quote elems
  | _ => None
  end.

(** The quotes of the data model: content and author are text. *)
Definition is_text (v : JsVal) : bool :=
  match v with
  | JStr _ => true
  | _ => false
  end.

Definition text_quote (q : Quote) : bool :=
  is_text (content q) && is_text (author q).

(** A field that JSON text gives back as it was ([null], a boolean, a
    string) or leaves out ([undefined]). *)
Definition plain_field (v : JsVal) : bool :=
  match v with
  | JUndefined | JNull | JBool _ | JStr _ => true
  | _ => false
  end.

Definition plain_quote (q : Quote) : bool :=
  plain_field (content q) && plain_field (author q).

Definition is_undefined (v : JsVal) : bool :=
  match v with
  | JUndefined => true
  | _ => false
  end.

(** The object that JSON text keeps of a quote: the literal without the
    keys whose value is [undefined]. *)
Definition kept_val (q : Quote) : JsVal :=
  JObj (List.filter (λ kv, negb (is_undefined kv.2))
          [(jstr "_id", JStr (_id q)); (jstr "content", content q);
           (jstr "author", author q)]).

(** The text of one member of an object, when its value has one. *)
Definition member_text (kv : JsString * JsVal) : option JsString :=
  match JSON_stringify kv.2 with
  | Some t => Some (QuoteJSONString kv.1 ++ 58%N :: t)
  | None => None
  end.

Record AppState := mkApp {
  quote : option Quote;
  loading : bool;
  error : JsString;
  theme : JsString;
  likedQuotes : list Quote;
  character : Character;
  sceneKey : nat;
}.

(** ** Theme *)

(** The initialiser of the [theme] state. *)
Definition theme_init (st : Storage) : JsString :=
  match getItem THEME_KEY st with
  | Some saved => or_else saved (jstr "dark")
  | None => jstr "dark"
  end.

(** The effect on [theme]: the write is attempted and a failure ignored. *)
Definition persist_theme (t : JsString) (st : Storage) : Storage :=
  default st (setItem THEME_KEY t st).

(** The updater of the theme button: [t === "dark" ? "light" : "dark"]. *)
Definition toggle_theme (t : JsString) : JsString :=
  if decide (t = jstr "dark") then jstr "light" else jstr "dark".

Definition click_theme (s : AppState) : AppState :=
  mkApp (quote s) (loading s) (error s) (toggle_theme (theme s))
        (likedQuotes s) (character s) (sceneKey s).

(** ** Liked quotes *)

(** The initialiser of the [likedQuotes] state: the stored text parsed, or
    the empty array when there is none, when reading throws, or when
    parsing throws. *)
Definition likedQuotes_init (st : Storage) : JsVal :=
  match getItem LS_KEY st with
  | Some (Some (c :: raw)) => default (JArr []) (JSON_parse (c :: raw))
  | Some _ => JArr []
  | None => JArr []
  end.

(** The effect on [likedQuotes].  [setItem] stores the string form of its
    argument, which is ["undefined"] when [JSON.stringify] returns
    [undefined]. *)
Definition persist_liked (L : list Quote) (st : Storage) : Storage :=
  default st
    (setItem LS_KEY (default (jstr "undefined") (JSON_stringify (quotes_val L))) st).

(** [likedIds]: the set of the ids in the list. *)
Definition likedIds (L : list Quote) : gset JsString := list_to_set (_id <$> L).

Definition isLiked (id : JsString) (L : list Quote) : bool :=
  bool_decide (id ∈ likedIds L).


(** The updater that [toggleLike] passes to [setLikedQuotes], with the
    guard on the current quote in front of it. *)
Definition toggleLike (current : option Quote) (prev : list Quote) : list Quote :=
  match current with
  | None => prev
  | Some q =>
      let exists_ := existsb (λ x, bool_decide (_id x = _id q)) prev in
      if exists_ then filter (λ x, _id x ≠ _id q) prev
      else mkQuote (_id q) (content q) (author q) :: prev
  end.

Definition removeLiked (id : JsString) (prev : list Quote) : list Quote :=
  filter (λ q, _id q ≠ id) prev.

Definition clearLiked (prev : list Quote) : list Quote := [].

Definition set_liked (L : list Quote) (s : AppState) : AppState :=
  mkApp (quote s) (loading s) (error s) (theme s) L (character s) (sceneKey s).

Definition click_like (s : AppState) : AppState :=
  set_liked (toggleLike (quote s) (likedQuotes s)) s.

Definition click_remove (id : JsString) (s : AppState) : AppState :=
  set_liked (removeLiked id (likedQuotes s)) s.

Definition click_clear (s : AppState) : AppState :=
  set_liked (clearLiked (likedQuotes s)) s.

(** ** Fetching a quote *)

(** A thrown [Error] object: the handler reads its [message] only. *)
Record JsError := mkError { message : JsString }.

(** What reading the response body gave. *)
Inductive BodyRead :=
| BodyFailed (e : JsError)
| BodyText (text : JsString).

(** What [fetch] gave: a rejection, or a response with its [ok] flag. *)
Inductive FetchOutcome :=
| Rejected (e : JsError)
| Responded (ok : bool) (body : BodyRead).

(** The rest of the environment of one call: the messages the engine puts
    into its own SyntaxError and TypeError, and
    [Math.floor(Math.random() * CHARACTERS.length)], which is below the
    length of [CHARACTERS]. *)
Record FetchEnv := mkEnv {
  outcome : FetchOutcome;
  syntax_error : JsError;
  type_error : JsError;
  random_index : nat;
}.

Definition pickRandomCharacter (i : nat) : Character :=
  nth i CHARACTERS (mkCharacter [] [] []).

(** The body of the [try] block up to the argument of [setQuote]. *)
Definition fetched_quote (env : FetchEnv) : JsError + Quote :=
  match outcome env with
  | Rejected e => inl e
  | Responded false _ => inl (mkError (jstr "Failed to fetch quote"))
  | Responded true (BodyFailed e) => inl e
  | Responded true (BodyText text) =>
      match JSON_parse text with
      | None => inl (syntax_error env)
      | Some data =>
          match get_prop data (jstr "id") with
          | None => inl (type_error env)
          | Some i =>
              match js_String i with
              | None => inl (type_error env)
              | Some id =>
                  inr (mkQuote id
                         (default JUndefined (get_prop data (jstr "quote")))
                         (default JUndefined (get_prop data (jstr "author"))))
              end
          end
      end
  end.

(** The two calls before the [await]. *)
Definition fetch_start (s : AppState) : AppState :=
  mkApp (quote s) true [] (theme s) (likedQuotes s) (character s) (sceneKey s).

(** The rest of [fetchRandomQuote], run when the request has settled. *)
Definition fetch_settle (env : FetchEnv) (s : AppState) : AppState :=
  match fetched_quote env with
  | inr q =>
      mkApp (Some q) false (error s) (theme s) (likedQuotes s)
            (pickRandomCharacter (random_index env)) (S (sceneKey s))
  | inl e =>
      mkApp (quote s) false (or_else (Some (message e)) (jstr "Something went wrong"))
            (theme s) (likedQuotes s) (character s) (sceneKey s)
  end.

Definition fetchRandomQuote (env : FetchEnv) (s : AppState) : AppState :=
  fetch_settle env (fetch_start s).

(** ** The first render

    The initial values of the state hooks.  The typed state holds the
    restored list when the stored value is an array of quotes; any other
    stored JSON value is outside it ([None]). *)
Definition mount (st : Storage) : option AppState :=
  L ← as_quotes (likedQuotes_init st);
  Some (mkApp None false [] (theme_init st) L
              (nth 0 CHARACTERS (mkCharacter [] [] [])) 0).

(** A stored text is a well-formed list when it is JSON for an array of
    quote objects; any other text is malformed content. *)
Definition well_formed_list (raw : JsString) : bool :=
  match JSON_parse raw with
  | Some v => match as_quotes v with Some _ => true | None => false end
  | None => false
  end.

(** The callback of the [likedIds] memo on the value the initialiser
    returned, before the set is built: [likedQuotes.map((q) => q._id)].
    [None] is a TypeError: a value that is not an array has no callable
    [map] (an own [map] property of a parsed object is data), and [q._id]
    throws on a [null] element. *)
Definition liked_ids_of (v : JsVal) : option (list JsVal) :=
  match v with
  | JArr elems => mapM (λ q, get_prop q (jstr "_id")) elems
  | _ => None
  end.

(** ** What is rendered

    The conditions of the JSX: which blocks are there and which buttons are
    disabled. *)

(** A string as a condition: the empty string is falsy. *)
Definition truthy (x : JsString) : bool :=
  match x with
  | [] => false
  | _ :: _ => true
  end.

(** [error && !loading]: the alert, with its Try Again button. *)
Definition showAlert (s : AppState) : bool := truthy (error s) && negb (loading s).

(** [!error]: the scene, with the quote and the character. *)
Definition showScene (s : AppState) : bool := negb (truthy (error s)).

(** [quote ? ... : ...] inside the scene: the placeholder text stands for
    a missing quote. *)
Definition showPlaceholder (s : AppState) : bool :=
  showScene s && bool_decide (quote s = None).

Definition newQuoteDisabled (s : AppState) : bool := loading s.

(** [loading || !quote] *)
Definition likeDisabled (s : AppState) : bool :=
  loading s || bool_decide (quote s = None).

(** [likedQuotes.length === 0]: Clear All is disabled and the empty message
    replaces the list. *)
Definition clearDisabled (s : AppState) : bool :=
  bool_decide (length (likedQuotes s) = 0).

(** A value between JSX braces.  React renders strings and numbers as text,
    [null], [undefined] and booleans as nothing, an array child by child, and
    throws on a plain object. *)
Fixpoint child_ok (v : JsVal) : bool :=
  match v with
  | JObj _ => false
  | JArr elems =>
      (fix all (l : list JsVal) : bool :=
         match l with
         | [] => true
         | x :: rest => child_ok x && all rest
         end) elems
  | _ => true
  end.

(** A value in a template literal: [String(v)] must not throw. *)
Definition prints (v : JsVal) : bool :=
  match js_String v with
  | Some _ => true
  | None => false
  end.

(** The blocks of one render that the properties below are about. *)
Record View := mkView {
  alert : bool;
  scene : bool;
  placeholder : bool;
}.

(** One render of the component.  [None] is a render that throws: inside the
    scene the template literals print [quote.content] and [quote.author],
    and every item of the list has [q.content] and [q.author] as children. *)
Definition render (s : AppState) : option View :=
  let scene_ok :=
    match quote s with
    | Some q => negb (showScene s) || (prints (content q) && prints (author q))
    | None => true
    end in
  let list_ok :=
    forallb (λ q, child_ok (content q) && child_ok (author q)) (likedQuotes s) in
  if scene_ok && list_ok
  then Some (mkView (showAlert s) (showScene s) (showPlaceholder s))
  else None.

(** ** Events

    What can happen to the mounted component: a click on a button that is
    rendered and not disabled, or the settling of a request in flight.
    [pending] counts the calls of [fetchRandomQuote] that have not settled. *)

Inductive Event :=
| ClickNewQuote
| ClickTryAgain
| Settled (env : FetchEnv)
| ClickLike
| ClickRemove (id : JsString)
| ClickClear
| ClickTheme.

Record World := mkWorld {
  component : AppState;
  pending : nat;
}.

(** A Remove button is rendered for each entry of the list, with its id. *)
Definition enabled (e : Event) (w : World) : bool :=
  match e with
  | ClickNewQuote => negb (newQuoteDisabled (component w))
  | ClickTryAgain => showAlert (component w)
  | Settled _ => bool_decide (0 < pending w)
  | ClickLike => negb (likeDisabled (component w))
  | ClickRemove id => isLiked id (likedQuotes (component w))
  | ClickClear => negb (clearDisabled (component w))
  | ClickTheme => true
  end.

Definition handle (e : Event) (w : World) : World :=
  match e with
  | ClickNewQuote | ClickTryAgain => mkWorld (fetch_start (component w)) (S (pending w))
  | Settled env => mkWorld (fetch_settle env (component w)) (pred (pending w))
  | ClickLike => mkWorld (click_like (component w)) (pending w)
  | ClickRemove id => mkWorld (click_remove id (component w)) (pending w)
  | ClickClear => mkWorld (click_clear (component w)) (pending w)
  | ClickTheme => mkWorld (click_theme (component w)) (pending w)
  end.

(** The component once its mount effect has called [fetchRandomQuote], once
    (React's development StrictMode, which runs mount effects twice, is not
    modelled). *)
Definition mounted (s0 : AppState) : World := mkWorld (fetch_start s0) 1.

Inductive reachable (w0 : World) : World → Prop :=
| reachable_start : reachable w0 w0
| reachable_step w e :
    reachable w0 w → enabled e w = true → reachable w0 (handle e w).

End App.

(** ** An instance for concrete runs

    Integers, printed in decimal.  An integer numeral denotes its value; of a
    numeral with a fraction or an exponent only the integer part is read, so
    the runs below use integer numerals only. *)

Fixpoint decimal_digits (fuel : nat) (n : N) (acc : JsString) : JsString :=
  match fuel with
  | O => acc
  | S fuel =>
      let acc' := (48 + (n `mod` 10))%N :: acc in
      if (n <? 10)%N then acc' else decimal_digits fuel (n / 10)%N acc'
  end.

Definition Z_toString (z : Z) : JsString :=
  let n := Z.abs_N z in
  let digits := decimal_digits (S (N.to_nat (N.log2 n))) n [] in
  if (z <? 0)%Z then 45%N :: digits else digits.

Definition Z_ofNumeral (tok : JsString) : Z :=
  match tok with
  | c :: r =>
      if (c =? 45)%N then (- Z.of_N (digits_value 0 (fst (scan_digits r))))%Z
      else Z.of_N (digits_value 0 (fst (scan_digits tok)))
  | [] => 0%Z
  end.

Definition integers : JsNumbers :=
  {| number := Z;
     Number_toString := Z_toString;
     Number_isFinite := λ _, true;
     Number_ofNumeral := Z_ofNumeral |}.

(** ** Data for concrete runs *)

(** The quotes of the scenario, and a third one. *)
Definition quote_1 : Quote (H := integers) :=
  mkQuote (jstr "1") (JStr (jstr "A")) (JStr (jstr "X")).
Definition quote_2 : Quote (H := integers) :=
  mkQuote (jstr "2") (JStr (jstr "B")) (JStr (jstr "Y")).
Definition quote_3 : Quote (H := integers) :=
  mkQuote (jstr "3") (JStr (jstr "C")) JUndefined.

(** The state of a first render on an empty storage. *)
Definition fresh_state : AppState (H := integers) :=
  mkApp None false [] (jstr "dark") [] (nth 0 CHARACTERS (mkCharacter [] [] [])) 0.

(** A state to run the examples from, with one quote shown and one liked. *)
Definition shown_state : AppState (H := integers) :=
  mkApp (Some quote_1) false [] (jstr "dark") [quote_2]
        (nth 0 CHARACTERS (mkCharacter [] [] [])) 1.

Definition env_of (o : FetchOutcome) : FetchEnv :=
  mkEnv o (mkError (jstr "Unexpected token")) (mkError (jstr "Cannot read properties")) 3.

(** A storage whose liked-quotes key holds the text null. *)
Definition null_storage : Storage :=
  mkStorage false 100 {[ LS_KEY := jstr "null" ]}.

(** A quote whose content is an object with an own toString key. *)
Definition quote_4 : Quote (H := integers) :=
  mkQuote (jstr "4") (JObj [(jstr "toString", @JNum integers 1%Z)]) (JStr (jstr "X")).

(** The body of a response whose quote is an object with an own toString
    key: id 4, author X. *)
Definition body_4 : JsString :=
  [123; 34]%N ++ jstr "id" ++ [34; 58]%N ++ jstr "4" ++ [44; 34]%N ++
  jstr "quote" ++ [34; 58; 123; 34]%N ++ jstr "toString" ++ [34; 58]%N ++
  jstr "1" ++ [125; 44; 34]%N ++
  jstr "author" ++ [34; 58; 34]%N ++ jstr "X" ++ [34; 125]%N.

(** The text [{oops], which is not JSON. *)
Definition not_json : JsString := 123%N :: jstr "oops".

(** The body of a response: an object with id 7 (a number), quote A and
    author X. *)
Definition body_7 : JsString :=
  [123; 34]%N ++ jstr "id" ++ [34; 58]%N ++ jstr "7" ++ [44; 34]%N ++
  jstr "quote" ++ [34; 58; 34]%N ++ jstr "A" ++ [34; 44; 34]%N ++
  jstr "author" ++ [34; 58; 34]%N ++ jstr "X" ++ [34; 125]%N.

Definition data_7 : JsVal (H := integers) :=
  JObj [(jstr "id", @JNum integers 7%Z);
        (jstr "quote", JStr (jstr "A")); (jstr "author", JStr (jstr "X"))].

(** * Properties *)

(** ** JSON text *)

(** *** Strings: what [QuoteJSONString] writes, [parse_string_body] reads *)

Lemma hex_value_digit (n : N) : (n < 16)%N → hex_value (hex_digit n) = Some n.
Proof.
  intros Hn. unfold hex_digit, hex_value.
  destruct (N.ltb_spec n 10).
  - replace ((48 <=? 48 + n)%N && (48 + n <=? 57)%N) with true; [f_equal; lia|].
    symmetry. apply andb_true_iff. split; apply N.leb_le; lia.
  - replace ((48 <=? 87 + n)%N && (87 + n <=? 57)%N) with false.
    + replace ((97 <=? 87 + n)%N && (87 + n <=? 102)%N) with true; [f_equal; lia|].
      symmetry. apply andb_true_iff. split; apply N.leb_le; lia.
    + symmetry. apply andb_false_iff. right. apply N.leb_gt. lia.
Qed.

Lemma hex4_escape (c : N) :
  (c < 65536)%N →
  hex4 (hex_digit ((c / 4096) `mod` 16)%N) (hex_digit ((c / 256) `mod` 16)%N)
       (hex_digit ((c / 16) `mod` 16)%N) (hex_digit (c `mod` 16)%N) = Some c.
Proof.
  intros Hc. unfold hex4.
  rewrite !hex_value_digit by (apply N.mod_lt; lia).
  f_equal.
  zify. Z.to_euclidean_division_equations. lia.
Qed.

Lemma parse_string_body_literal c rest :
  (c =? 34)%N = false → (c =? 92)%N = false → (c <? 32)%N = false →
  parse_string_body (c :: rest) = cons_unit c (parse_string_body rest).
Proof. intros H1 H2 H3. simpl. by rewrite H1, H2, H3. Qed.

Lemma parse_string_body_u h1 h2 h3 h4 rest :
  parse_string_body (92 :: 117 :: h1 :: h2 :: h3 :: h4 :: rest)%N
  = match hex4 h1 h2 h3 h4 with
    | Some u => cons_unit u (parse_string_body rest)
    | None => None
    end.
Proof. simpl. by destruct (hex4 h1 h2 h3 h4), (parse_string_body rest). Qed.

Lemma surrogate_literal c :
  is_high_surrogate c || is_low_surrogate c = true →
  (c =? 34)%N = false ∧ (c =? 92)%N = false ∧ (c <? 32)%N = false ∧ (c < 65536)%N.
Proof.
  unfold is_high_surrogate, is_low_surrogate.
  rewrite orb_true_iff, !andb_true_iff, !N.leb_le.
  rewrite !N.eqb_neq, N.ltb_ge. lia.
Qed.

Ltac destruct_rest rest :=
  simpl; destruct (parse_string_body rest) as [[??]|].

Lemma parse_quote_unit c rest :
  parse_string_body (quote_unit c ++ rest) = cons_unit c (parse_string_body rest).
Proof.
  unfold quote_unit.
  destruct (N.eqb_spec c 8) as [->|?]; [by destruct_rest rest|].
  destruct (N.eqb_spec c 9) as [->|?]; [by destruct_rest rest|].
  destruct (N.eqb_spec c 10) as [->|?]; [by destruct_rest rest|].
  destruct (N.eqb_spec c 12) as [->|?]; [by destruct_rest rest|].
  destruct (N.eqb_spec c 13) as [->|?]; [by destruct_rest rest|].
  destruct (N.eqb_spec c 34) as [->|?]; [by destruct_rest rest|].
  destruct (N.eqb_spec c 92) as [->|?]; [by destruct_rest rest|].
  destruct ((c <? 32)%N || is_high_surrogate c || is_low_surrogate c) eqn:E.
  - assert (c < 65536)%N as Hc.
    { rewrite <- orb_assoc in E. apply orb_true_iff in E as [E|E].
      - apply N.ltb_lt in E. lia.
      - by apply surrogate_literal in E as (_ & _ & _ & ?). }
    unfold unicode_escape. simpl app.
    by rewrite parse_string_body_u, hex4_escape.
  - apply orb_false_iff in E as [[E _]%orb_false_iff _].
    simpl app. apply parse_string_body_literal; [by apply N.eqb_neq..|done].
Qed.

Lemma quote_units_cons c d r :
  quote_units (c :: d :: r)
  = if is_high_surrogate c && is_low_surrogate d
    then c :: d :: quote_units r
    else quote_unit c ++ quote_units (d :: r).
Proof. reflexivity. Qed.

(** Reading back a quoted string gives the string, up to the closing quote. *)
Lemma parse_quote_units s rest :
  parse_string_body (quote_units s ++ 34%N :: rest) = Some (s, rest).
Proof.
  assert (∀ n s, length s ≤ n →
            parse_string_body (quote_units s ++ 34%N :: rest) = Some (s, rest)) as Hn.
  { clear s. induction n as [|n IH]; intros [|c [|d r]] Hlen; simpl in Hlen;
      try done; try lia.
    - simpl quote_units. by rewrite parse_quote_unit.
    - rewrite quote_units_cons.
      destruct (is_high_surrogate c && is_low_surrogate d) eqn:E.
      + apply andb_true_iff in E as [Ec Ed].
        assert (is_high_surrogate c || is_low_surrogate c = true) as Hc
          by (by rewrite Ec).
        assert (is_high_surrogate d || is_low_surrogate d = true) as Hd
          by (rewrite Ed; apply orb_true_r).
        apply surrogate_literal in Hc as (? & ? & ? & _).
        apply surrogate_literal in Hd as (? & ? & ? & _).
        rewrite <- !app_comm_cons.
        rewrite !parse_string_body_literal by done.
        rewrite IH by lia. done.
      + rewrite <- app_assoc, parse_quote_unit.
        rewrite (IH (d :: r)) by (simpl; lia). done. }
  by apply (Hn (length s)).
Qed.

(** *** The parser runs on any text

    Every reader leaves less text than it was given, so the fuel that
    [JSON_parse] starts with is never used up. *)

Lemma skip_ws_length s : length (skip_ws s) ≤ length s.
Proof.
  induction s as [|c s IH]; simpl; [done|]. destruct (is_ws c); simpl; lia.
Qed.

Lemma parse_string_body_length s t r :
  parse_string_body s = Some (t, r) → length r < length s.
Proof.
  assert (∀ n s t r, length s ≤ n →
            parse_string_body s = Some (t, r) → length r < length s) as Hn.
  { clear. induction n as [|n IH]; intros [|c s] t r Hlen Hp; simpl in *;
      try done; try lia.
    repeat (case_match; simplify_eq/=; try done); try lia;
      match goal with
      | Hr : parse_string_body _ = Some _ |- _ =>
          apply IH in Hr; simpl in *; lia
      end. }
  by apply (Hn (length s)).
Qed.

Lemma scan_digits_length s d r : scan_digits s = (d, r) → length r ≤ length s.
Proof.
  revert d r. induction s as [|c s IH]; intros d r Hs; simpl in *.
  - by simplify_eq.
  - destruct (is_digit c); [|by simplify_eq].
    destruct (scan_digits s) as [d' r'] eqn:E. simplify_eq.
    specialize (IH _ _ eq_refl). lia.
Qed.

Lemma scan_numeral_length s tok r :
  scan_numeral s = Some (tok, r) → length r < length s.
Proof.
  unfold scan_numeral, scan_int, scan_frac, scan_exp. intros Hs.
  repeat (case_match; simplify_eq/=; try done);
    repeat match goal with
           | Hd : scan_digits _ = (_, _) |- _ =>
               apply scan_digits_length in Hd; simpl in Hd
           end; lia.
Qed.

Lemma strip_prefix_length p s r :
  strip_prefix p s = Some r → length r + length p = length s.
Proof.
  revert s. induction p as [|a p IH]; intros [|b s] Hs; simpl in *;
    simplify_eq; try done.
  destruct (a =? b)%N; [|done]. apply IH in Hs. lia.
Qed.

Section ParserFuel.
Context `{!JsNumbers}.

#[local] Arguments strip_prefix : simpl never.
#[local] Arguments scan_numeral : simpl never.

(** Facts on the lengths of the texts at hand, for [lia]. *)
Ltac lengths :=
  repeat match goal with
         | Hs : skip_ws ?x = _ |- _ =>
             let Hl := fresh "Hl" in
             pose proof (skip_ws_length x) as Hl; rewrite Hs in Hl; clear Hs
         | Hs : parse_string_body _ = Some _ |- _ =>
             apply parse_string_body_length in Hs
         | Hs : strip_prefix _ _ = Some _ |- _ =>
             apply strip_prefix_length in Hs
         | Hs : scan_numeral _ = Some _ |- _ =>
             apply scan_numeral_length in Hs
         end;
  simpl in *; try lia.

Lemma parse_consumes f :
  (∀ s v r, parse_value f s = Parsed v r → length r < length s) ∧
  (∀ acc s v r, parse_elements f acc s = Parsed v r → length r < length s) ∧
  (∀ acc s v r, parse_members f acc s = Parsed v r → length r < length s).
Proof.
  induction f as [|f (IHv & IHe & IHm)]; [done|].
  split_and!.
  - intros s v r Hp. simpl in Hp.
    repeat (case_match; simplify_eq; try done);
      try (apply IHe in Hp); try (apply IHm in Hp); lengths.
  - intros acc s v r Hp. simpl in Hp.
    destruct (parse_value f s) as [v' r'| |] eqn:Ev; try done.
    apply IHv in Ev.
    repeat (case_match; simplify_eq; try done);
      try (apply IHe in Hp); lengths.
  - intros acc s v r Hp. simpl in Hp.
    repeat (case_match; simplify_eq; try done);
      try (apply IHm in Hp);
      repeat match goal with
             | Hv : parse_value f _ = Parsed _ _ |- _ => apply IHv in Hv
             end; lengths.
Qed.

Lemma parse_total f :
  (∀ s, 2 * length s < f → parse_value f s ≠ OutOfFuel) ∧
  (∀ acc s, 2 * length s + 1 < f → parse_elements f acc s ≠ OutOfFuel) ∧
  (∀ acc s, 2 * length s + 1 < f → parse_members f acc s ≠ OutOfFuel).
Proof.
  induction f as [|f (IHv & IHe & IHm)]; [split_and!; intros; lia|].
  destruct (parse_consumes f) as (Cv & _ & _).
  split_and!.
  - intros s Hf. simpl.
    repeat (case_match; try done); [apply IHe|apply IHm]; lengths.
  - intros acc s Hf. simpl.
    destruct (parse_value f s) as [v' r'| |] eqn:Ev; [|done|].
    + apply Cv in Ev. repeat (case_match; try done). apply IHe. lengths.
    + by apply IHv in Ev; [|lia].
  - intros acc s Hf. simpl.
    repeat (case_match; try done).
    + apply IHm.
      repeat match goal with
             | Hv : parse_value f _ = Parsed _ _ |- _ => apply Cv in Hv
             end; lengths.
    + match goal with
      | Hv : parse_value f _ = OutOfFuel |- _ => apply IHv in Hv; [done|]
      end. lengths.
Qed.

Lemma parse_fuel_mono f :
  (∀ f' s, f ≤ f' → parse_value f s ≠ OutOfFuel →
           parse_value f' s = parse_value f s) ∧
  (∀ f' acc s, f ≤ f' → parse_elements f acc s ≠ OutOfFuel →
               parse_elements f' acc s = parse_elements f acc s) ∧
  (∀ f' acc s, f ≤ f' → parse_members f acc s ≠ OutOfFuel →
               parse_members f' acc s = parse_members f acc s).
Proof.
  induction f as [|f (IHv & IHe & IHm)]; [done|].
  split_and!.
  - intros [|f'] s Hle Hp; [lia|]. simpl in *.
    repeat (case_match; try done); [apply IHe|apply IHm]; (lia || done).
  - intros [|f'] acc s Hle Hp; [lia|]. simpl in *.
    destruct (parse_value f s) as [v' r'| |] eqn:Ev; [| |done].
    + rewrite (IHv f' s), Ev by (lia || by rewrite Ev).
      repeat (case_match; try done). apply IHe; (lia || done).
    + by rewrite (IHv f' s), Ev by (lia || by rewrite Ev).
  - intros [|f'] acc s Hle Hp; [lia|]. simpl in *.
    destruct (skip_ws s) as [|c r]; [done|].
    destruct (c =? 34)%N; [|done].
    destruct (parse_string_body r) as [[k r1]|]; [|done].
    destruct (skip_ws r1) as [|c1 r2]; [done|].
    destruct (c1 =? 58)%N; [|done].
    destruct (parse_value f r2) as [v' r'| |] eqn:Ev; [| |done].
    + rewrite (IHv f' r2), Ev by (lia || by rewrite Ev).
      repeat (case_match; try done). apply IHm; (lia || done).
    + by rewrite (IHv f' r2), Ev by (lia || by rewrite Ev).
Qed.

(** The fuel of [JSON_parse] is enough: it never ends with [OutOfFuel], and
    a result reached with any fuel is the result it gives. *)
Lemma parse_value_fuel s : parse_value (2 * length s + 1) s ≠ OutOfFuel.
Proof. apply parse_total. lia. Qed.

Lemma parse_value_enough f s v r :
  parse_value f s = Parsed v r →
  parse_value (2 * length s + 1) s = Parsed v r.
Proof.
  intros Hp. destruct (parse_fuel_mono f) as (Mf & _ & _).
  destruct (parse_fuel_mono (2 * length s + 1)) as (MF & _ & _).
  destruct (decide (f ≤ 2 * length s + 1)) as [Hle|Hgt].
  - by rewrite (Mf _ s Hle), Hp by (by rewrite Hp).
  - rewrite <- Hp. symmetry. apply MF; [lia|]. apply parse_value_fuel.
Qed.

(** *** Round trip of a list of quotes *)

#[local] Arguments define_prop : simpl never.

Lemma JSON_stringify_array elems :
  JSON_stringify (JArr elems) = Some (91%N :: join_comma (json_text <$> elems) ++ [93%N]).
Proof.
  reflexivity.
Qed.

Lemma parse_value_quoted f s rest :
  parse_value (S f) (34%N :: quote_units s ++ 34%N :: rest) = Parsed (JStr s) rest.
Proof. simpl. by rewrite parse_quote_units. Qed.

Lemma parse_members_more f acc k s rest :
  parse_members (S (S f)) acc
    (34%N :: quote_units k ++ 34%N :: 58%N :: 34%N :: quote_units s ++ 34%N :: 44%N :: rest)
  = parse_members (S f) (define_prop acc k (JStr s)) rest.
Proof.
  remember (parse_members (S f) (define_prop acc k (JStr s)) rest) as R.
  simpl. rewrite parse_quote_units. simpl. rewrite parse_quote_units. simpl.
  by subst R.
Qed.

Lemma parse_members_last f acc k s rest :
  parse_members (S (S f)) acc
    (34%N :: quote_units k ++ 34%N :: 58%N :: 34%N :: quote_units s ++ 34%N :: 125%N :: rest)
  = Parsed (JObj (define_prop acc k (JStr s))) rest.
Proof.
  simpl. rewrite parse_quote_units. simpl. by rewrite parse_quote_units.
Qed.

Lemma quote_val_text id c a :
  json_text (quote_val (mkQuote id (JStr c) (JStr a)))
  = 123%N :: join_comma
      [QuoteJSONString (jstr "_id") ++ 58%N :: QuoteJSONString id;
       QuoteJSONString (jstr "content") ++ 58%N :: QuoteJSONString c;
       QuoteJSONString (jstr "author") ++ 58%N :: QuoteJSONString a] ++ [125%N].
Proof. reflexivity. Qed.

Lemma parse_value_object f r :
  parse_value (S f) (123%N :: 34%N :: r) = parse_members f [] (34%N :: r).
Proof. reflexivity. Qed.

Lemma parse_value_array f r :
  parse_value (S f) (91%N :: 123%N :: r) = parse_elements f [] (123%N :: r).
Proof. reflexivity. Qed.

Lemma quote_props id (c a : JsVal) :
  define_prop (define_prop (define_prop [] (jstr "_id") (JStr id))
                 (jstr "content") c) (jstr "author") a
  = [(jstr "_id", JStr id); (jstr "content", c); (jstr "author", a)].
Proof. reflexivity. Qed.

(** Appends put in the shape [a :: b :: x ++ c :: y ++ ...]. *)
Ltac flatten := repeat first [rewrite <- app_assoc | progress cbn [app]].

Lemma parse_quote_val f id c a rest :
  parse_value (5 + f) (json_text (quote_val (mkQuote id (JStr c) (JStr a))) ++ rest)
  = Parsed (quote_val (mkQuote id (JStr c) (JStr a))) rest.
Proof.
  rewrite quote_val_text. change (5 + f) with (S (S (S (S (S f))))).
  cbn [join_comma]. unfold QuoteJSONString. flatten.
  rewrite parse_value_object.
  rewrite !parse_members_more, parse_members_last.
  by rewrite quote_props.
Qed.
Lemma parse_elements_S f acc s :
  parse_elements (S f) acc s
  = match parse_value f s with
    | Parsed v rest =>
        match skip_ws rest with
        | c :: rest' =>
            if (c =? 44)%N then parse_elements f (acc ++ [v]) rest'
            else if (c =? 93)%N then Parsed (JArr (acc ++ [v])) rest'
            else SyntaxError
        | [] => SyntaxError
        end
    | SyntaxError => SyntaxError
    | OutOfFuel => OutOfFuel
    end.
Proof. reflexivity. Qed.

Lemma text_quote_inv q :
  text_quote q = true → ∃ id c a, q = mkQuote id (JStr c) (JStr a).
Proof.
  destruct q as [id [] []]; try done. intros _. by eexists _, _, _.
Qed.

Lemma join_comma_cons t t' ts :
  join_comma (t :: t' :: ts) = t ++ 44%N :: join_comma (t' :: ts).
Proof. reflexivity. Qed.

Lemma parse_quote_elements L :
  ∀ q acc f rest,
    text_quote q = true → forallb text_quote L = true →
    parse_elements (length L + 6 + f) acc
      (join_comma (json_text <$> (quote_val <$> q :: L)) ++ 93%N :: rest)
    = Parsed (JArr (acc ++ (quote_val <$> q :: L))) rest.
Proof.
  induction L as [|q' L IH]; intros q acc f rest Hq HL;
    destruct (text_quote_inv q Hq) as (id & c & a & ->).
  - change (length [] + 6 + f) with (S (5 + f)).
    rewrite parse_elements_S. cbn [fmap list_fmap join_comma].
    by rewrite parse_quote_val.
  - apply andb_true_iff in HL as [Hq' HL].
    replace (length (q' :: L) + 6 + f) with (S (5 + (length L + 1 + f)))
      by (simpl; lia).
    rewrite parse_elements_S.
    rewrite (fmap_cons quote_val), (fmap_cons json_text), (fmap_cons quote_val).
    rewrite (fmap_cons json_text), join_comma_cons.
    rewrite <- (fmap_cons json_text), <- (fmap_cons quote_val).
    rewrite <- app_assoc, parse_quote_val.
    cbn [app skip_ws is_ws N.eqb Pos.eqb orb].
    replace (5 + (length L + 1 + f)) with (length L + 6 + f) by lia.
    rewrite IH by done. by rewrite <- app_assoc.
Qed.

Lemma parse_value_array_quotes f q L rest :
  text_quote q = true →
  parse_value (S f) (91%N :: join_comma (json_text <$> (quote_val <$> q :: L)) ++ rest)
  = parse_elements f [] (join_comma (json_text <$> (quote_val <$> q :: L)) ++ rest).
Proof.
  intros (id & c & a & ->)%text_quote_inv.
  assert (∃ r, join_comma (json_text <$> (quote_val <$> mkQuote id (JStr c) (JStr a) :: L))
               ++ rest = 123%N :: r) as [r ->]; [|apply parse_value_array].
  rewrite (fmap_cons quote_val), (fmap_cons json_text), quote_val_text.
  destruct L; by eexists.
Qed.

Lemma as_quotes_quotes_val L : as_quotes (quotes_val L) = Some L.
Proof.
  unfold as_quotes, quotes_val. apply mapM_Some.
  induction L as [|q L IH]; constructor; [by destruct q|done].
Qed.

Lemma JSON_parse_quotes L :
  forallb text_quote L = true →
  JSON_parse (91%N :: join_comma (json_text <$> (quote_val <$> L)) ++ [93%N])
  = Some (quotes_val L).
Proof.
  intros HL. unfold JSON_parse.
  destruct L as [|q L]; [done|].
  apply andb_true_iff in HL as [Hq HL].
  set (text := _ :: _ ++ _).
  rewrite (parse_value_enough (S (length L + 6 + 0)) text (quotes_val (q :: L)) []);
    [done|].
  subst text. rewrite parse_value_array_quotes by done.
  by rewrite parse_quote_elements.
Qed.

(** C6: for a list of quotes as the data model has them (content and author
    are text), writing the list as JSON text and parsing the text gives back
    the same array of [{_id, content, author}] objects, from which the same
    quotes are read in the same order. *)
Theorem persist_roundtrip L :
  forallb text_quote L = true →
  ∃ text,
    JSON_stringify (quotes_val L) = Some text ∧
    JSON_parse text = Some (quotes_val L) ∧
    as_quotes (quotes_val L) = Some L.
Proof.
  intros HL. unfold quotes_val at 1. rewrite JSON_stringify_array.
  eexists. split; [done|].
  split; [by apply JSON_parse_quotes|apply as_quotes_quotes_val].
Qed.

(** The effect and the initialiser together: what the effect wrote to a
    working storage is what the next start reads. *)
Lemma restore_after_persist L st text :
  forallb text_quote L = true →
  JSON_stringify (quotes_val L) = Some text →
  blocked st = false → length text ≤ quota st →
  likedQuotes_init (persist_liked L st) = quotes_val L ∧
  ∃ s, mount (persist_liked L st) = Some s ∧ likedQuotes s = L.
Proof.
  intros HL Htext Hopen Hroom.
  pose proof (JSON_parse_quotes L HL) as Hparse.
  pose proof (as_quotes_quotes_val L) as Hread.
  assert (text = 91%N :: join_comma (json_text <$> (quote_val <$> L)) ++ [93%N])
    as Etext.
  { unfold quotes_val in Htext. rewrite JSON_stringify_array in Htext.
    congruence. }
  rewrite <- Etext in Hparse.
  assert (likedQuotes_init (persist_liked L st) = quotes_val L) as E.
  { unfold persist_liked, setItem, likedQuotes_init, getItem.
    rewrite Htext, Hopen, bool_decide_eq_true_2 by done. simpl.
    rewrite lookup_insert_eq.
    destruct text as [|c raw]; [done|]. by rewrite Hparse. }
  split; [done|]. unfold mount. rewrite E, Hread. by eexists.
Qed.

(** [JSON_parse] has no result only on a text that is not JSON: the value
    grammar fails, or something other than white space follows the value. *)
Lemma JSON_parse_None text :
  JSON_parse text = None →
  parse_value (2 * length text + 1) text = SyntaxError ∨
  ∃ v rest, parse_value (2 * length text + 1) text = Parsed v rest ∧
            skip_ws rest ≠ [].
Proof.
  unfold JSON_parse. pose proof (parse_value_fuel text) as Hfuel.
  destruct (parse_value _ text) as [v rest| |]; [|by left|done].
  intros Hrest. right. exists v, rest. split; [done|].
  by destruct (skip_ws rest).
Qed.

End ParserFuel.

Lemma persist_roundtrip_witness :
  ∃ text,
    JSON_stringify (quotes_val [quote_2; quote_1]) = Some text ∧
    JSON_parse text = Some (quotes_val [quote_2; quote_1]) ∧
    as_quotes (quotes_val [quote_2; quote_1]) = Some [quote_2; quote_1].
Proof. apply persist_roundtrip. reflexivity. Defined.

(** Where a field is [undefined], [JSON.stringify] leaves the key out: the
    parsed object differs from the written one, and reads as the same quote. *)
Example persist_absent_author :
  JSON_stringify (quotes_val [quote_3]) ≫= JSON_parse (H := integers)
  = Some (JArr [JObj [(jstr "_id", JStr (jstr "3")); (jstr "content", JStr (jstr "C"))]]) ∧
  as_quotes (JArr [JObj [(jstr "_id", JStr (jstr "3")); (jstr "content", JStr (jstr "C"))]])
  = Some [quote_3].
Proof. split; by vm_compute. Qed.

(** ** Start-up and theme *)

Lemma click_theme_theme `{!JsNumbers} (s : AppState) :
  theme (click_theme s) = toggle_theme (theme s).
Proof. reflexivity. Qed.

(** C9: when the stored theme is missing, or reading the storage throws,
    the theme starts as dark; the toggle turns dark into light and light
    into dark. *)
Theorem theme_default_and_toggle (st : Storage) :
  getItem THEME_KEY st = None ∨ getItem THEME_KEY st = Some None →
  theme_init st = jstr "dark" ∧
  toggle_theme (jstr "dark") = jstr "light" ∧
  toggle_theme (jstr "light") = jstr "dark".
Proof.
  intros Hread. split; [|done].
  unfold theme_init. by destruct Hread as [-> | ->].
Qed.

Lemma theme_default_and_toggle_witness :
  theme_init (mkStorage true 0 ∅) = jstr "dark" ∧
  toggle_theme (jstr "dark") = jstr "light" ∧
  toggle_theme (jstr "light") = jstr "dark".
Proof. apply theme_default_and_toggle. left. reflexivity. Defined.

(** C5, as amended: when the key of the liked quotes is missing, when
    reading the storage throws, or when the stored text is not well-formed
    JSON (parsing throws), the list starts empty and nothing is thrown: the
    initialiser turns each of the three failures into the empty array.
    (Content that is malformed in another way is not covered: see
    [likedQuotes_init_malformed_kept].) *)
Theorem likedQuotes_init_fallback `{!JsNumbers} (st : Storage) :
  getItem LS_KEY st = Some None ∨
  getItem LS_KEY st = None ∨
  (∃ raw, getItem LS_KEY st = Some (Some raw) ∧ JSON_parse raw = None) →
  likedQuotes_init st = JArr [] ∧
  ∃ s, mount st = Some s ∧ likedQuotes s = [].
Proof.
  intros Hread.
  assert (likedQuotes_init st = JArr []) as E.
  { unfold likedQuotes_init.
    destruct Hread as [-> | [-> | (raw & -> & Hraw)]]; [done..|].
    destruct raw; [done|]. by rewrite Hraw. }
  split; [done|]. unfold mount. rewrite E. by eexists.
Qed.

Lemma likedQuotes_init_fallback_witness :
  likedQuotes_init (H := integers) (mkStorage false 100 {[ LS_KEY := not_json ]})
  = JArr [].
Proof.
  apply (likedQuotes_init_fallback (mkStorage false 100 {[ LS_KEY := not_json ]})).
  right. right. exists not_json. split; by vm_compute.
Defined.

(** C5 as first stated fails.  The stored text null is malformed content (it
    is not a list of quotes), yet the initialiser does not fall back to the
    empty list: it returns the parsed value, the typed state has no list for
    it, and computing likedIds on it throws in the first render. *)
Lemma likedQuotes_init_malformed_kept :
  getItem LS_KEY null_storage = Some (Some (jstr "null")) ∧
  well_formed_list (H := integers) (jstr "null") = false ∧
  likedQuotes_init (H := integers) null_storage = JNull ∧
  likedQuotes_init (H := integers) null_storage ≠ JArr [] ∧
  mount (H := integers) null_storage = None ∧
  liked_ids_of (likedQuotes_init (H := integers) null_storage) = None.
Proof. split_and!; by vm_compute. Qed.

(** So does an object: the initialiser returns the parsed value as it is. *)
Example likedQuotes_init_other_json :
  likedQuotes_init (H := integers) (mkStorage false 100 {[ LS_KEY := jstr "{}" ]})
  = JObj [].
Proof. by vm_compute. Qed.

(** ** The liked-quotes list *)

Section LikedQuotes.
Context `{!JsNumbers}.
Implicit Types (q : Quote) (L : list Quote) (id : JsString).

Lemma isLiked_true id L : isLiked id L = true ↔ id ∈ _id <$> L.
Proof.
  unfold isLiked, likedIds. rewrite bool_decide_eq_true.
  apply elem_of_list_to_set.
Qed.

Lemma isLiked_false id L : isLiked id L = false ↔ id ∉ _id <$> L.
Proof.
  rewrite <- isLiked_true. destruct (isLiked id L); naive_solver.
Qed.

(** [prev.some(...)] and [likedIds.has(...)] agree. *)
Lemma some_isLiked id L :
  existsb (λ x, bool_decide (_id x = id)) L = isLiked id L.
Proof.
  destruct (isLiked id L) eqn:E.
  - apply isLiked_true, list_elem_of_fmap in E as (x & -> & Hx).
    apply existsb_exists. exists x. split.
    + by apply list_elem_of_In.
    + by apply bool_decide_eq_true.
  - apply isLiked_false in E. apply not_true_is_false.
    intros (x & Hx & Hid)%existsb_exists. apply E.
    apply bool_decide_eq_true in Hid as <-.
    apply list_elem_of_fmap_2. by apply list_elem_of_In.
Qed.

Lemma filter_absent id L :
  id ∉ _id <$> L → filter (λ x, _id x ≠ id) L = L.
Proof.
  induction L as [|x L IH]; intros Hid; [done|].
  rewrite fmap_cons, not_elem_of_cons in Hid. destruct Hid as [Hx HL].
  rewrite filter_cons_True by done. by rewrite IH.
Qed.

Lemma filter_ids id L :
  _id <$> filter (λ x, _id x ≠ id) L = filter (λ i, i ≠ id) (_id <$> L).
Proof.
  induction L as [|x L IH]; [done|].
  rewrite fmap_cons, !filter_cons.
  destruct (decide (_id x ≠ id)); [|done]. by rewrite fmap_cons, IH.
Qed.

(** With distinct ids, filtering an id out deletes the one entry that has it. *)
Lemma filter_present id L l1 e l2 :
  NoDup (_id <$> L) → L = l1 ++ e :: l2 → _id e = id →
  filter (λ x, _id x ≠ id) L = l1 ++ l2.
Proof.
  intros Hnd -> <-.
  rewrite fmap_app, fmap_cons in Hnd.
  apply NoDup_app in Hnd as (_ & Hl1 & Hnd).
  apply NoDup_cons in Hnd as [Hl2 _].
  rewrite filter_app, filter_cons_False by naive_solver.
  rewrite !filter_absent; [done|done|].
  intros Hin. apply (Hl1 _ Hin). left.
Qed.

Lemma toggleLike_unlike q L :
  isLiked (_id q) L = true →
  toggleLike (Some q) L = filter (λ x, _id x ≠ _id q) L.
Proof. intros E. unfold toggleLike. by rewrite some_isLiked, E. Qed.

Lemma toggleLike_like q L :
  isLiked (_id q) L = false →
  toggleLike (Some q) L = mkQuote (_id q) (content q) (author q) :: L.
Proof. intros E. unfold toggleLike. by rewrite some_isLiked, E. Qed.

Lemma isLiked_filter id L : isLiked id (filter (λ x, _id x ≠ id) L) = false.
Proof.
  apply isLiked_false. rewrite filter_ids.
  intros [Hne _]%list_elem_of_filter. by apply Hne.
Qed.

(** C1: liking a quote and then unliking it (two successive calls of
    toggleLike on a quote that was not liked) gives back the list as it
    was: same entries, same order. *)
Theorem toggleLike_like_then_unlike q L :
  isLiked (_id q) L = false →
  toggleLike (Some q) (toggleLike (Some q) L) = L.
Proof.
  intros E. rewrite (toggleLike_like q L E).
  rewrite toggleLike_unlike.
  - rewrite filter_cons_False by naive_solver.
    apply filter_absent. by apply isLiked_false.
  - apply isLiked_true. rewrite fmap_cons. left.
Qed.

(** C3: the like/unlike rule.  With no current quote the list is left as it
    is; a quote whose id is not in the list is copied to the front; a quote
    whose id is in the list has its entry taken out (the entries with another
    id stay, in order; with distinct ids that is the list without the one
    entry).  The scenario: from the empty list, liking 1/A/X, liking 2/B/Y
    and unliking 1 leaves the single entry 2/B/Y. *)
Theorem toggleLike_rule (current : option Quote) L :
  (current = None → toggleLike current L = L) ∧
  (∀ q, current = Some q → isLiked (_id q) L = false →
        toggleLike current L = mkQuote (_id q) (content q) (author q) :: L) ∧
  (∀ q, current = Some q → isLiked (_id q) L = true →
        toggleLike current L = filter (λ x, _id x ≠ _id q) L ∧
        (∀ l1 e l2, NoDup (_id <$> L) → L = l1 ++ e :: l2 → _id e = _id q →
                    toggleLike current L = l1 ++ l2)) ∧
  (let q1 := mkQuote (jstr "1") (JStr (jstr "A")) (JStr (jstr "X")) in
   let q2 := mkQuote (jstr "2") (JStr (jstr "B")) (JStr (jstr "Y")) in
   toggleLike (Some q1) [] = [q1] ∧
   toggleLike (Some q2) [q1] = [q2; q1] ∧
   toggleLike (Some q1) [q2; q1] = [q2]).
Proof.
  split; [by intros ->|]. split; [|split].
  - intros q -> E. by apply toggleLike_like.
  - intros q -> E. split; [by apply toggleLike_unlike|].
    intros l1 e l2 Hnd HL He. rewrite toggleLike_unlike by done.
    by apply (filter_present _ L l1 e l2).
  - by vm_compute.
Qed.

(** C4: right after a call of toggleLike that adds the id (the quote was not
    liked), isLiked is true for it; right after a call that removes it (the
    quote was liked), isLiked is false. *)
Theorem isLiked_after_toggleLike q L :
  (isLiked (_id q) L = false → isLiked (_id q) (toggleLike (Some q) L) = true) ∧
  (isLiked (_id q) L = true → isLiked (_id q) (toggleLike (Some q) L) = false).
Proof.
  split; intros E.
  - rewrite toggleLike_like by done. apply isLiked_true. rewrite fmap_cons. left.
  - rewrite toggleLike_unlike by done. apply isLiked_filter.
Qed.

(** C7: removeLiked on an id that is not in the list leaves the list as it
    is; on an id that is in the list (of distinct ids) it takes out the entry
    with that id, and in any case no entry with that id is left. *)
Theorem removeLiked_spec id L :
  (isLiked id L = false → removeLiked id L = L) ∧
  (∀ l1 e l2, NoDup (_id <$> L) → L = l1 ++ e :: l2 → _id e = id →
              removeLiked id L = l1 ++ l2) ∧
  isLiked id (removeLiked id L) = false.
Proof.
  split; [|split].
  - intros E. apply filter_absent. by apply isLiked_false.
  - intros l1 e l2 Hnd HL He. by apply (filter_present _ L l1 e l2).
  - apply isLiked_filter.
Qed.

(** C8: a list without two entries of the same id stays so under
    toggleLike, removeLiked and clearLiked. *)
Theorem no_duplicate_ids_preserved (current : option Quote) id L :
  NoDup (_id <$> L) →
  NoDup (_id <$> toggleLike current L) ∧
  NoDup (_id <$> removeLiked id L) ∧
  NoDup (_id <$> clearLiked L).
Proof.
  intros Hnd. split; [|split].
  - destruct current as [q|]; [|done].
    destruct (isLiked (_id q) L) eqn:E.
    + rewrite toggleLike_unlike, filter_ids by done. by apply NoDup_filter.
    + rewrite toggleLike_like, fmap_cons by done.
      apply NoDup_cons. split; [by apply isLiked_false|done].
  - unfold removeLiked. rewrite filter_ids. by apply NoDup_filter.
  - apply NoDup_nil_2.
Qed.

End LikedQuotes.

Lemma toggleLike_like_then_unlike_witness :
  toggleLike (Some quote_3) (toggleLike (Some quote_3) [quote_2; quote_1])
  = [quote_2; quote_1].
Proof. apply toggleLike_like_then_unlike. reflexivity. Defined.

(** The other order is not covered: unliking a liked quote and liking it
    again moves it to the front. *)
Example toggleLike_unlike_then_like :
  toggleLike (Some quote_1) (toggleLike (Some quote_1) [quote_2; quote_1])
  = [quote_1; quote_2].
Proof. reflexivity. Qed.

Lemma toggleLike_rule_witness :
  toggleLike (Some quote_1) [quote_2; quote_1] = [quote_2].
Proof.
  apply (proj2 (proj1 (proj2 (proj2
           (toggleLike_rule (Some quote_1) [quote_2; quote_1]))) quote_1
             eq_refl eq_refl) [quote_2] quote_1 []).
  - apply (bool_decide_unpack _). by vm_compute.
  - reflexivity.
  - reflexivity.
Defined.

Lemma isLiked_after_toggleLike_witness :
  isLiked (jstr "3") (toggleLike (Some quote_3) [quote_2; quote_1]) = true ∧
  isLiked (jstr "1") (toggleLike (Some quote_1) [quote_2; quote_1]) = false.
Proof.
  split.
  - apply (proj1 (isLiked_after_toggleLike quote_3 [quote_2; quote_1])). reflexivity.
  - apply (proj2 (isLiked_after_toggleLike quote_1 [quote_2; quote_1])). reflexivity.
Defined.

Lemma removeLiked_spec_witness :
  removeLiked (jstr "3") [quote_2; quote_1] = [quote_2; quote_1] ∧
  removeLiked (jstr "2") [quote_2; quote_1] = [quote_1].
Proof.
  split.
  - apply (proj1 (removeLiked_spec (jstr "3") [quote_2; quote_1])). reflexivity.
  - apply (proj1 (proj2 (removeLiked_spec (jstr "2") [quote_2; quote_1]))
             [] quote_2 [quote_1]).
    + apply (bool_decide_unpack _). by vm_compute.
    + reflexivity.
    + reflexivity.
Defined.

Lemma no_duplicate_ids_preserved_witness :
  NoDup (_id <$> toggleLike (Some quote_3) [quote_2; quote_1]) ∧
  NoDup (_id <$> removeLiked (jstr "2") [quote_2; quote_1]) ∧
  NoDup (_id <$> clearLiked [quote_2; quote_1]).
Proof.
  apply no_duplicate_ids_preserved.
  apply (bool_decide_unpack _). by vm_compute.
Defined.

(** ** Fetching *)

Section Fetch.
Context `{!JsNumbers}.
Implicit Types (env : FetchEnv) (s : AppState).

Lemma or_else_nonempty (x : option JsString) (d : JsString) :
  d ≠ [] → or_else x d ≠ [].
Proof. by destruct x as [[|c r]|]. Qed.

(** Whatever makes the [try] block throw, and whatever was done to the state
    while the request was pending, the handler touches [error] and
    [loading] only. *)
Lemma fetch_settle_failure env s e :
  fetched_quote env = inl e →
  fetch_settle env s
  = mkApp (quote s) false (or_else (Some (message e)) (jstr "Something went wrong"))
          (theme s) (likedQuotes s) (character s) (sceneKey s).
Proof. intros E. unfold fetch_settle. by rewrite E. Qed.

(** C10: when the request fails (fetch rejects, or the response is not ok),
    fetchRandomQuote leaves the current quote and the liked quotes as they
    were, and so the theme, the character and the scene key; the error is a
    non-empty string and loading is false. *)
Theorem fetch_failure_keeps_quote env s :
  (∃ e, outcome env = Rejected e) ∨ (∃ body, outcome env = Responded false body) →
  let s' := fetchRandomQuote env s in
  quote s' = quote s ∧
  likedQuotes s' = likedQuotes s ∧
  error s' ≠ [] ∧
  loading s' = false ∧
  theme s' = theme s ∧ character s' = character s ∧ sceneKey s' = sceneKey s.
Proof.
  intros Hfail.
  assert (∃ e, fetched_quote env = inl e) as [e E].
  { unfold fetched_quote. destruct Hfail as [[e ->] | [body ->]]; by eexists. }
  cbv zeta. unfold fetchRandomQuote. rewrite (fetch_settle_failure _ _ e E).
  cbn [quote likedQuotes error loading theme character sceneKey fetch_start].
  split_and!; [done..| |done|done|done|done]. by apply or_else_nonempty.
Qed.

(** C2: when the response is ok and its body parses to [data], and reading
    [data.id] and coercing it to a string succeed, the new current quote has
    [String(data.id)] as its id, [data.quote] as its content and
    [data.author] as its author. *)
Theorem fetched_quote_fields env s text data i id :
  outcome env = Responded true (BodyText text) →
  JSON_parse text = Some data →
  get_prop data (jstr "id") = Some i →
  js_String i = Some id →
  ∃ c a,
    get_prop data (jstr "quote") = Some c ∧
    get_prop data (jstr "author") = Some a ∧
    fetched_quote env = inr (mkQuote id c a) ∧
    quote (fetchRandomQuote env s) = Some (mkQuote id c a).
Proof.
  intros Hout Hparse Hid Hstr.
  assert (∀ k, ∃ v, get_prop data k = Some v) as Hget.
  { intros k. destruct data; try done; by eexists. }
  destruct (Hget (jstr "quote")) as [c Hc], (Hget (jstr "author")) as [a Ha].
  assert (fetched_quote env = inr (mkQuote id c a)) as E.
  { unfold fetched_quote. by rewrite Hout, Hparse, Hid, Hstr, Hc, Ha. }
  exists c, a. repeat split; [done..|].
  unfold fetchRandomQuote, fetch_settle. by rewrite E.
Qed.

End Fetch.

Lemma fetch_failure_keeps_quote_witness :
  let s' := fetchRandomQuote (env_of (Responded false (BodyText []))) shown_state in
  quote s' = Some quote_1 ∧
  likedQuotes s' = [quote_2] ∧
  error s' ≠ [] ∧
  loading s' = false ∧
  theme s' = jstr "dark" ∧
  character s' = character shown_state ∧
  sceneKey s' = 1.
Proof.
  apply (fetch_failure_keeps_quote
           (env_of (Responded false (BodyText []))) shown_state).
  right. exists (BodyText []). reflexivity.
Defined.

Lemma fetched_quote_fields_witness :
  ∃ c a,
    get_prop data_7 (jstr "quote") = Some c ∧
    get_prop data_7 (jstr "author") = Some a ∧
    fetched_quote (env_of (Responded true (BodyText body_7)))
    = inr (mkQuote (jstr "7") c a) ∧
    quote (fetchRandomQuote (env_of (Responded true (BodyText body_7))) shown_state)
    = Some (mkQuote (jstr "7") c a).
Proof.
  apply (fetched_quote_fields
           (env_of (Responded true (BodyText body_7))) shown_state
           body_7 data_7 (@JNum integers 7%Z) (jstr "7")).
  - reflexivity.
  - by vm_compute.
  - reflexivity.
  - reflexivity.
Defined.

(** * Further properties *)

(** ** The liked-quotes list: how the operations compose *)

Section LikedQuotesMore.
Context `{!JsNumbers}.
Implicit Types (q : Quote) (L : list Quote) (id : JsString).

(** X1: removals commute, and removing the same id again changes nothing:
    the order in which Remove buttons are clicked does not matter. *)
Theorem removeLiked_commute id1 id2 L :
  removeLiked id1 (removeLiked id2 L) = removeLiked id2 (removeLiked id1 L) ∧
  removeLiked id1 (removeLiked id1 L) = removeLiked id1 L.
Proof.
  unfold removeLiked. split.
  - rewrite !list_filter_filter. apply list_filter_iff. intros x. tauto.
  - apply list_filter_filter_l. done.
Qed.

Lemma toggleLike_others q L :
  filter (λ x, _id x ≠ _id q) (toggleLike (Some q) L)
  = filter (λ x, _id x ≠ _id q) L.
Proof.
  destruct (isLiked (_id q) L) eqn:E.
  - rewrite toggleLike_unlike by done. by apply list_filter_filter_l.
  - rewrite toggleLike_like by done. by rewrite filter_cons_False by naive_solver.
Qed.

Lemma isLiked_filter_other id id' L :
  id' ≠ id → isLiked id' (filter (λ x, _id x ≠ id) L) = isLiked id' L.
Proof.
  intros Hne. destruct (isLiked id' L) eqn:E.
  - apply isLiked_true. rewrite filter_ids. apply list_elem_of_filter.
    split; [done|]. by apply isLiked_true.
  - apply isLiked_false. rewrite filter_ids.
    intros [_ Hin]%list_elem_of_filter. by apply isLiked_false in E.
Qed.

(** X2: toggleLike and removeLiked touch the entries of one id only.  The
    entries with another id are the same, in the same order, before and
    after, and isLiked of another id keeps its value. *)
Theorem liked_others_untouched q id L :
  filter (λ x, _id x ≠ _id q) (toggleLike (Some q) L)
  = filter (λ x, _id x ≠ _id q) L ∧
  filter (λ x, _id x ≠ id) (removeLiked id L) = filter (λ x, _id x ≠ id) L ∧
  (∀ id', id' ≠ _id q → isLiked id' (toggleLike (Some q) L) = isLiked id' L) ∧
  (∀ id', id' ≠ id → isLiked id' (removeLiked id L) = isLiked id' L).
Proof.
  split_and!.
  - apply toggleLike_others.
  - unfold removeLiked. by apply list_filter_filter_l.
  - intros id' Hne.
    rewrite <- (isLiked_filter_other (_id q) id' (toggleLike (Some q) L)) by done.
    rewrite toggleLike_others. by apply isLiked_filter_other.
  - intros id' Hne. by apply isLiked_filter_other.
Qed.

Lemma filter_present_length id L :
  NoDup (_id <$> L) → isLiked id L = true →
  S (length (filter (λ x, _id x ≠ id) L)) = length L.
Proof.
  intros Hnd (e & -> & He)%isLiked_true%list_elem_of_fmap.
  apply list_elem_of_split in He as (l1 & l2 & HL).
  rewrite (filter_present (_id e) L l1 e l2) by done.
  rewrite HL, !length_app. simpl. lia.
Qed.

(** X3: the liked count.  Liking adds one entry; with distinct ids,
    unliking (by toggleLike or by removeLiked) takes exactly one away. *)
Theorem liked_count q L :
  NoDup (_id <$> L) →
  length (toggleLike (Some q) L)
  = (if isLiked (_id q) L then length L - 1 else length L + 1) ∧
  length (removeLiked (_id q) L)
  = (if isLiked (_id q) L then length L - 1 else length L).
Proof.
  intros Hnd. destruct (isLiked (_id q) L) eqn:E.
  - rewrite toggleLike_unlike by done. unfold removeLiked.
    pose proof (filter_present_length (_id q) L Hnd E). lia.
  - rewrite toggleLike_like by done. unfold removeLiked.
    rewrite filter_absent by (by apply isLiked_false). simpl. lia.
Qed.

(** X4: toggling a liked quote twice does not give the list back: the
    entry leaves its place and a copy of the current quote's fields comes
    to the front, in front of the list that removeLiked gives. *)
Theorem toggleLike_twice_liked q L :
  isLiked (_id q) L = true →
  toggleLike (Some q) (toggleLike (Some q) L)
  = mkQuote (_id q) (content q) (author q) :: removeLiked (_id q) L.
Proof.
  intros E. rewrite (toggleLike_unlike q L E).
  rewrite toggleLike_like by apply isLiked_filter. done.
Qed.

End LikedQuotesMore.

Lemma liked_others_untouched_witness :
  isLiked (jstr "2") (toggleLike (Some quote_1) [quote_2; quote_1]) = true ∧
  isLiked (jstr "1") (removeLiked (jstr "2") [quote_2; quote_1]) = true.
Proof.
  split.
  - apply (proj1 (proj2 (proj2
             (liked_others_untouched quote_1 (jstr "2") [quote_2; quote_1])))
             (jstr "2")).
    by vm_compute.
  - apply (proj2 (proj2 (proj2
             (liked_others_untouched quote_1 (jstr "2") [quote_2; quote_1])))
             (jstr "1")).
    by vm_compute.
Defined.

Lemma liked_count_witness :
  length (toggleLike (Some quote_1) [quote_2; quote_1]) = 1 ∧
  length (removeLiked (jstr "1") [quote_2; quote_1]) = 1.
Proof.
  apply (liked_count quote_1 [quote_2; quote_1]).
  apply (bool_decide_unpack _). by vm_compute.
Defined.

Lemma toggleLike_twice_liked_witness :
  toggleLike (Some quote_1) (toggleLike (Some quote_1) [quote_2; quote_1])
  = [quote_1; quote_2].
Proof. apply (toggleLike_twice_liked quote_1 [quote_2; quote_1]). reflexivity. Defined.

(** ** Theme and storage *)

(** X5: whatever the theme was, a click on the theme button gives dark or
    light and never the value it had; from then on two clicks give the theme
    back.  A stored value that is neither is kept at start-up and turns into
    dark at the first click. *)
Theorem toggle_theme_range (t : JsString) :
  toggle_theme t ≠ t ∧
  (toggle_theme t = jstr "dark" ∨ toggle_theme t = jstr "light") ∧
  toggle_theme (toggle_theme (toggle_theme t)) = toggle_theme t ∧
  (t ≠ jstr "dark" → toggle_theme t = jstr "dark").
Proof.
  unfold toggle_theme. destruct (decide (t = jstr "dark")) as [->|Hne].
  - split_and!; [done|by right|done|done].
  - split_and!; [congruence|by left|done|done].
Qed.

Lemma toggle_theme_range_witness :
  toggle_theme (jstr "blue") = jstr "dark".
Proof. apply (toggle_theme_range (jstr "blue")). by vm_compute. Defined.

Lemma keys_differ : LS_KEY ≠ THEME_KEY.
Proof. by vm_compute. Qed.

(** X6: the theme written by the effect is the theme the next start reads,
    when the storage takes the write. *)
Theorem theme_restore (t : JsString) (st : Storage) :
  blocked st = false → length t ≤ quota st → t ≠ [] →
  theme_init (persist_theme t st) = t.
Proof.
  intros Hopen Hroom Ht.
  unfold persist_theme, setItem, theme_init, getItem.
  rewrite Hopen, bool_decide_eq_true_2 by done. simpl.
  rewrite lookup_insert_eq. by destruct t.
Qed.

Lemma theme_restore_witness :
  theme_init (persist_theme (jstr "light") (mkStorage false 100 ∅)) = jstr "light".
Proof. apply theme_restore; [reflexivity|simpl; lia|done]. Defined.

Section Storage.
Context `{!JsNumbers}.

(** X7: the two effects write under different keys: persisting the liked
    quotes never changes the theme the next start reads, and persisting
    the theme never changes the liked quotes it reads, whether the write
    is taken or refused. *)
Theorem persist_independent (L : list Quote) (t : JsString) (st : Storage) :
  theme_init (persist_liked L st) = theme_init st ∧
  likedQuotes_init (persist_theme t st) = likedQuotes_init st.
Proof.
  pose proof keys_differ as Hk. split.
  - unfold persist_liked, setItem. destruct (blocked st) eqn:Hb; [done|].
    case_bool_decide; [|done]. simpl.
    unfold theme_init, getItem. simpl. rewrite Hb.
    by rewrite lookup_insert_ne.
  - unfold persist_theme, setItem. destruct (blocked st) eqn:Hb; [done|].
    case_bool_decide; [|done]. simpl.
    unfold likedQuotes_init, getItem. simpl. rewrite Hb.
    by rewrite lookup_insert_ne.
Qed.

Lemma liked_ids_of_quotes (L : list Quote) :
  liked_ids_of (quotes_val L) = Some ((λ q, JStr (_id q)) <$> L).
Proof.
  unfold liked_ids_of, quotes_val. apply mapM_Some.
  induction L as [|q L IH]; [constructor|].
  rewrite !fmap_cons. constructor; [done|apply IH].
Qed.

(** X8: the initialiser does not look at the shape of what it parsed.  When
    the stored text is JSON for anything but an array (an object, a string,
    a number, true, false, null), the initialiser returns that value and
    computing likedIds on it throws in the first render; so it does when
    the array has a null element.  On an array of quotes it gives the ids. *)
Theorem first_render_throws (st : Storage) (text : JsString) (v : JsVal) :
  getItem LS_KEY st = Some (Some text) →
  JSON_parse text = Some v →
  (∀ elems, v = JArr elems → JNull ∈ elems) →
  likedQuotes_init st = v ∧ liked_ids_of (likedQuotes_init st) = None.
Proof.
  intros Hget Hparse Hshape.
  assert (likedQuotes_init st = v) as ->.
  { unfold likedQuotes_init. rewrite Hget.
    destruct text as [|c raw]; [done|]. by rewrite Hparse. }
  split; [done|].
  destruct v as [| | | | |elems|]; try done.
  specialize (Hshape elems eq_refl). simpl.
  apply eq_None_not_Some. intros [ids Hids].
  apply mapM_Some in Hids.
  apply list_elem_of_lookup in Hshape as [i Hi].
  destruct (Forall2_lookup_l _ _ _ _ _ Hids Hi) as (y & _ & Hy). done.
Qed.

End Storage.

Lemma first_render_throws_witness :
  likedQuotes_init (mkStorage false 100 {[ LS_KEY := jstr "null" ]}) = @JNull integers ∧
  liked_ids_of (H := integers)
    (likedQuotes_init (mkStorage false 100 {[ LS_KEY := jstr "null" ]})) = None.
Proof.
  apply (first_render_throws _ (jstr "null") JNull).
  - by vm_compute.
  - by vm_compute.
  - intros elems Hv. discriminate Hv.
Defined.

(** ** Fetching: the other failures, and what a call never touches *)

Section FetchMore.
Context `{!JsNumbers}.
Implicit Types (env : FetchEnv) (s : AppState).

Lemma fetch_failed_state env s e :
  fetched_quote env = inl e →
  let s' := fetchRandomQuote env s in
  quote s' = quote s ∧
  likedQuotes s' = likedQuotes s ∧
  error s' ≠ [] ∧
  loading s' = false ∧
  theme s' = theme s ∧ character s' = character s ∧ sceneKey s' = sceneKey s.
Proof.
  intros E. cbv zeta. unfold fetchRandomQuote.
  rewrite (fetch_settle_failure _ _ e E).
  cbn [quote likedQuotes error loading theme character sceneKey fetch_start].
  split_and!; [done..| |done|done|done|done]. by apply or_else_nonempty.
Qed.

(** X9: a response that is ok can still fail: reading the body fails, the
    body is not JSON, the body is JSON null, or [data.id] is a value that
    [String] cannot coerce.  In each case the call ends like a failed
    request: a non-empty error, loading cleared, and the quote, the liked
    quotes, the theme, the character and the scene key as they were. *)
Theorem fetch_bad_body env s body :
  outcome env = Responded true body →
  (∃ e, body = BodyFailed e) ∨
  (∃ text, body = BodyText text ∧
     (JSON_parse text = None ∨
      JSON_parse text = Some JNull ∨
      ∃ data i, JSON_parse text = Some data ∧
                get_prop data (jstr "id") = Some i ∧ js_String i = None)) →
  let s' := fetchRandomQuote env s in
  quote s' = quote s ∧
  likedQuotes s' = likedQuotes s ∧
  error s' ≠ [] ∧
  loading s' = false ∧
  theme s' = theme s ∧ character s' = character s ∧ sceneKey s' = sceneKey s.
Proof.
  intros Hout Hbody.
  assert (∃ e, fetched_quote env = inl e) as [e E];
    [|by apply (fetch_failed_state env s e)].
  unfold fetched_quote. rewrite Hout.
  destruct Hbody as [[e ->] | (text & -> & [-> | [-> | (data & i & -> & Hi & Hs)]])];
    [by eexists..|].
  rewrite Hi, Hs. by eexists.
Qed.

(** X10: no call of fetchRandomQuote, whatever the network gives, changes
    the liked quotes or the theme, and every call ends with loading
    cleared.  The scene key moves exactly when a quote is set: either quote,
    character and scene key are all as before and the error is non-empty, or
    the scene key is one more, a quote is set and the error is empty. *)
Theorem fetch_frame env s :
  let s' := fetchRandomQuote env s in
  likedQuotes s' = likedQuotes s ∧
  theme s' = theme s ∧
  loading s' = false ∧
  ((quote s' = quote s ∧ character s' = character s ∧
    sceneKey s' = sceneKey s ∧ error s' ≠ []) ∨
   (∃ q, quote s' = Some q ∧ sceneKey s' = S (sceneKey s) ∧ error s' = [])).
Proof.
  cbv zeta. destruct (fetched_quote env) as [e|q] eqn:E.
  - destruct (fetch_failed_state env s e E) as (? & ? & ? & ? & ? & ? & ?).
    split_and!; [done..|]. by left.
  - unfold fetchRandomQuote, fetch_settle. rewrite E. simpl.
    split_and!; [done..|]. right. by exists q.
Qed.



(** X12: two calls that overlap (nothing in fetchRandomQuote itself prevents
    it; only the buttons do, see X13).
    The first to settle clears loading while the other is still in flight.
    When the first fails and the second succeeds, the quote of the second is
    set but the error of the first stays: the alert is rendered and the
    scene with the new quote is not. *)
Theorem overlapping_fetches env1 env2 s e q :
  fetched_quote env1 = inl e →
  fetched_quote env2 = inr q →
  let s1 := fetch_settle env1 (fetch_start (fetch_start s)) in
  let s2 := fetch_settle env2 s1 in
  loading s1 = false ∧
  quote s2 = Some q ∧
  error s2 ≠ [] ∧
  showAlert s2 = true ∧ showScene s2 = false.
Proof.
  intros E1 E2. cbv zeta. unfold fetch_settle. rewrite E1, E2.
  cbn [quote error loading fetch_start showAlert showScene].
  pose proof (or_else_nonempty (Some (message e)) (jstr "Something went wrong")
                ltac:(done)) as Hne.
  destruct (or_else _ _) as [|c r]; [done|]. by split_and!.
Qed.

End FetchMore.

Lemma fetch_bad_body_witness :
  let s' := fetchRandomQuote (env_of (Responded true (BodyText not_json))) shown_state in
  quote s' = Some quote_1 ∧
  likedQuotes s' = [quote_2] ∧
  error s' ≠ [] ∧
  loading s' = false ∧
  theme s' = jstr "dark" ∧
  character s' = character shown_state ∧
  sceneKey s' = 1.
Proof.
  apply (fetch_bad_body (env_of (Responded true (BodyText not_json))) shown_state
           (BodyText not_json)).
  - reflexivity.
  - right. exists not_json. split; [reflexivity|]. left. by vm_compute.
Defined.


Lemma overlapping_fetches_witness :
  let s1 := fetch_settle (env_of (Rejected (mkError (jstr "Failed to fetch"))))
              (fetch_start (fetch_start shown_state)) in
  let s2 := fetch_settle (env_of (Responded true (BodyText body_7))) s1 in
  loading s1 = false ∧
  quote s2 = Some (mkQuote (jstr "7") (JStr (jstr "A")) (JStr (jstr "X"))) ∧
  error s2 ≠ [] ∧
  showAlert s2 = true ∧ showScene s2 = false.
Proof.
  apply (overlapping_fetches
           (env_of (Rejected (mkError (jstr "Failed to fetch"))))
           (env_of (Responded true (BodyText body_7))) shown_state
           (mkError (jstr "Failed to fetch"))
           (mkQuote (jstr "7") (JStr (jstr "A")) (JStr (jstr "X")))).
  - reflexivity.
  - by vm_compute.
Defined.

(** ** The mounted component as a state machine *)

Section Machine.
Context `{!JsNumbers}.
Implicit Types (w : World) (s : AppState).

(** What holds of every state the buttons and the network can lead to. *)
Lemma reachable_invariant s0 w :
  reachable (mounted s0) w →
  pending w ≤ 1 ∧
  (loading (component w) = true ↔ pending w = 1) ∧
  (loading (component w) = true → error (component w) = []) ∧
  (loading (component w) = false →
   quote (component w) ≠ None ∨ error (component w) ≠ []).
Proof.
  induction 1 as [|w e Hw (Hle & Hload & Herr & Hshown) He].
  - simpl. split_and!; [lia|done|done|done].
  - destruct e as [| |env| |id| |]; simpl in He |- *;
      unfold newQuoteDisabled, showAlert in He.
    + apply negb_true_iff in He.
      assert (pending w = 0) as ->.
      { destruct (decide (pending w = 1)) as [H1|H1]; [|lia].
        apply Hload in H1. congruence. }
      split_and!; [lia|done|done|done].
    + apply andb_true_iff in He as [_ He%negb_true_iff].
      assert (pending w = 0) as ->.
      { destruct (decide (pending w = 1)) as [H1|H1]; [|lia].
        apply Hload in H1. congruence. }
      split_and!; [lia|done|done|done].
    + apply bool_decide_eq_true in He.
      assert (pending w = 1) as -> by lia. simpl.
      unfold fetch_settle.
      destruct (fetched_quote env) as [e|q]; cbn [quote loading error].
      * split_and!; [lia|done|done|].
        intros _. right. by apply or_else_nonempty.
      * split_and!; [lia|done|done|]. intros _. by left.
    + done.
    + done.
    + done.
    + done.
Qed.

(** X13: at most one request is in flight.  New Quote is disabled while
    loading and Try Again is rendered only when not loading, so from the
    mount on, through any clicks and settlings, the number of unsettled
    calls is 0 or 1, and it is 1 exactly while loading is set. *)
Theorem single_request_in_flight s0 w :
  reachable (mounted s0) w →
  pending w ≤ 1 ∧ (loading (component w) = true ↔ pending w = 1).
Proof.
  intros Hw. destruct (reachable_invariant s0 w Hw) as (? & ? & _). done.
Qed.







End Machine.

(** The first render on an empty storage. *)
Example mount_fresh : mount (mkStorage false 100 ∅) = Some fresh_state.
Proof. reflexivity. Qed.

Lemma no_block_rendered `{!JsNumbers} (s : AppState) :
  error s ≠ [] → loading s = true → showAlert s = false ∧ showScene s = false.
Proof.
  intros He Hl. unfold showAlert, showScene. rewrite Hl.
  by destruct (error s).
Qed.

Lemma single_request_in_flight_witness :
  pending (handle (Settled (env_of (Responded true (BodyText body_7))))
             (mounted fresh_state)) ≤ 1 ∧
  (loading (component (handle (Settled (env_of (Responded true (BodyText body_7))))
                         (mounted fresh_state))) = true
   ↔ pending (handle (Settled (env_of (Responded true (BodyText body_7))))
                (mounted fresh_state)) = 1).
Proof.
  apply (single_request_in_flight fresh_state).
  apply reachable_step; [apply reachable_start|reflexivity].
Defined.


(** A reachable state whose render throws: the first response was ok and
    its quote is an object with an own toString key, which the template
    literal of the scene cannot print. *)
Example render_throws :
  reachable (mounted fresh_state)
    (handle (Settled (env_of (Responded true (BodyText body_4)))) (mounted fresh_state)) ∧
  quote (component (handle (Settled (env_of (Responded true (BodyText body_4))))
                      (mounted fresh_state))) = Some quote_4 ∧
  showScene (component (handle (Settled (env_of (Responded true (BodyText body_4))))
                          (mounted fresh_state))) = true ∧
  render (component (handle (Settled (env_of (Responded true (BodyText body_4))))
                       (mounted fresh_state))) = None.
Proof.
  split; [apply reachable_step; [apply reachable_start|reflexivity]|].
  split_and!; by vm_compute.
Qed.


(** ** The set of liked ids *)

Section LikedIds.
Context `{!JsNumbers}.
Implicit Types (q : Quote) (L : list Quote) (id : JsString).

Lemma likedIds_filter id L :
  likedIds (filter (λ x, _id x ≠ id) L) = likedIds L ∖ {[ id ]}.
Proof.
  unfold likedIds. apply set_eq. intros i.
  rewrite elem_of_difference, !elem_of_list_to_set, filter_ids.
  rewrite list_elem_of_filter, elem_of_singleton. tauto.
Qed.

(** X16: on the set that backs isLiked, the list operations are the set
    operations: toggleLike adds the id of the quote when it is not there and
    takes it out when it is, removeLiked takes the id out, clearLiked
    empties the set. *)
Theorem likedIds_operations q id L :
  likedIds (toggleLike (Some q) L)
  = (if isLiked (_id q) L then likedIds L ∖ {[ _id q ]}
     else {[ _id q ]} ∪ likedIds L) ∧
  likedIds (removeLiked id L) = likedIds L ∖ {[ id ]} ∧
  likedIds (clearLiked L) = ∅.
Proof.
  split_and!.
  - destruct (isLiked (_id q) L) eqn:E.
    + rewrite toggleLike_unlike by done. apply likedIds_filter.
    + by rewrite toggleLike_like by done.
  - apply likedIds_filter.
  - done.
Qed.

End LikedIds.

(** ** Persistence of quotes with missing fields *)

Section PersistPlain.
Context `{!JsNumbers}.

#[local] Arguments define_prop : simpl never.

Ltac flatten := repeat first [rewrite <- app_assoc | progress cbn [app]].

Lemma JSON_stringify_object props :
  JSON_stringify (JObj props)
  = Some (123%N :: join_comma (omap member_text props) ++ [125%N]).
Proof.
  simpl. do 4 f_equal.
  induction props as [|[k x] props IH]; [done|].
  cbn [omap list_omap]. unfold member_text at 1. cbn [fst snd].
  destruct (JSON_stringify x); by rewrite IH.
Qed.

Lemma JSON_stringify_None v : JSON_stringify v = None → v = JUndefined.
Proof. by destruct v as [| |[]| | | |]. Qed.

Lemma parse_plain_value v t f rest :
  plain_field v = true → JSON_stringify v = Some t →
  parse_value (S f) (t ++ rest) = Parsed v rest.
Proof.
  destruct v as [| |[]| |s| |]; try done; intros _ [= <-]; try reflexivity.
  unfold QuoteJSONString. flatten. apply parse_value_quoted.
Qed.

Lemma parse_members_key f acc k r :
  parse_members (S f) acc (34%N :: quote_units k ++ 34%N :: 58%N :: r)
  = match parse_value f r with
    | Parsed v r3 =>
        match skip_ws r3 with
        | c3 :: r4 =>
            if (c3 =? 44)%N then parse_members f (define_prop acc k v) r4
            else if (c3 =? 125)%N then Parsed (JObj (define_prop acc k v)) r4
            else SyntaxError
        | [] => SyntaxError
        end
    | SyntaxError => SyntaxError
    | OutOfFuel => OutOfFuel
    end.
Proof. simpl. by rewrite parse_quote_units. Qed.

(** The members of an object whose values are plain, after the first. *)
Lemma parse_members_props props :
  Forall (λ kv, plain_field kv.2 = true) props →
  ∀ k v t acc f rest,
    plain_field v = true → JSON_stringify v = Some t →
    parse_members (length props + 2 + f) acc
      (join_comma ((QuoteJSONString k ++ 58%N :: t) :: omap member_text props)
       ++ 125%N :: rest)
    = Parsed (JObj (foldl (λ a kv, define_prop a kv.1 kv.2) (define_prop acc k v)
                      (List.filter (λ kv, negb (is_undefined kv.2)) props))) rest.
Proof.
  induction 1 as [|[k' v'] props Hv' Hprops IH]; intros k v t acc f rest Hv Ht.
  - change (length [] + 2 + f) with (S (S f)).
    cbn [omap list_omap join_comma]. unfold QuoteJSONString. flatten.
    rewrite parse_members_key, (parse_plain_value v t f _ Hv Ht). done.
  - cbn [omap list_omap List.filter fst snd]. unfold member_text at 1. cbn [fst snd].
    destruct (JSON_stringify v') as [t'|] eqn:Et'.
    + assert (is_undefined v' = false) as -> by (by destruct v').
      cbn [negb foldl fst snd].
      rewrite join_comma_cons.
      replace (length ((k', v') :: props) + 2 + f) with (S (length props + 2 + f))
        by (simpl; lia).
      unfold QuoteJSONString at 1. flatten.
      replace (length props + 2 + f) with (S (length props + 1 + f)) by lia.
      rewrite parse_members_key, (parse_plain_value v t _ _ Hv Ht).
      cbn [skip_ws is_ws N.eqb Pos.eqb orb].
      replace (S (length props + 1 + f)) with (length props + 2 + f) by lia.
      by apply IH.
    + apply JSON_stringify_None in Et' as ->. cbn [is_undefined negb].
      replace (length ((k', JUndefined) :: props) + 2 + f)
        with (length props + 2 + S f) by (simpl; lia).
      by apply IH.
Qed.

Lemma plain_quote_inv q :
  plain_quote q = true → plain_field (content q) = true ∧ plain_field (author q) = true.
Proof. unfold plain_quote. by intros ?%andb_true_iff. Qed.

Lemma kept_val_props id c a :
  plain_field c = true → plain_field a = true →
  JObj (foldl (λ acc kv, define_prop acc kv.1 kv.2)
          (define_prop [] (jstr "_id") (JStr id))
          (List.filter (λ kv, negb (is_undefined kv.2))
             [(jstr "content", c); (jstr "author", a)]))
  = kept_val (mkQuote id c a).
Proof.
  destruct c as [| |[]| |?| |], a as [| |[]| |?| |]; try done; reflexivity.
Qed.

Lemma quote_val_text_plain id c a :
  json_text (quote_val (mkQuote id c a))
  = 123%N :: join_comma
      ((QuoteJSONString (jstr "_id") ++ 58%N :: QuoteJSONString id)
       :: omap member_text [(jstr "content", c); (jstr "author", a)]) ++ [125%N].
Proof. unfold json_text, quote_val. by rewrite JSON_stringify_object. Qed.

Lemma parse_value_object_members f k m ms rest :
  parse_value (S f) (123%N :: join_comma ((QuoteJSONString k ++ m) :: ms) ++ rest)
  = parse_members f [] (join_comma ((QuoteJSONString k ++ m) :: ms) ++ rest).
Proof.
  assert (∃ r, join_comma ((QuoteJSONString k ++ m) :: ms) ++ rest = 34%N :: r)
    as [r ->]; [|apply parse_value_object].
  destruct ms; by eexists.
Qed.

Lemma parse_kept_val q f rest :
  plain_quote q = true →
  parse_value (5 + f) (json_text (quote_val q) ++ rest) = Parsed (kept_val q) rest.
Proof.
  intros [Hc Ha]%plain_quote_inv. destruct q as [id c a]. cbn [content author] in *.
  rewrite quote_val_text_plain.
  change (5 + f) with (S (length [(jstr "content", c); (jstr "author", a)] + 2 + f)).
  rewrite <- app_comm_cons, <- app_assoc. cbn [app].
  rewrite parse_value_object_members.
  rewrite <- (kept_val_props id c a Hc Ha).
  by apply parse_members_props; [repeat constructor|..].
Qed.

Lemma parse_plain_elements L :
  ∀ q acc f rest,
    plain_quote q = true → forallb plain_quote L = true →
    parse_elements (length L + 6 + f) acc
      (join_comma (json_text <$> (quote_val <$> q :: L)) ++ 93%N :: rest)
    = Parsed (JArr (acc ++ (kept_val <$> q :: L))) rest.
Proof.
  induction L as [|q' L IH]; intros q acc f rest Hq HL.
  - change (length [] + 6 + f) with (S (5 + f)).
    rewrite parse_elements_S. cbn [fmap list_fmap join_comma].
    by rewrite parse_kept_val.
  - apply andb_true_iff in HL as [Hq' HL].
    replace (length (q' :: L) + 6 + f) with (S (5 + (length L + 1 + f)))
      by (simpl; lia).
    rewrite parse_elements_S.
    rewrite (fmap_cons quote_val), (fmap_cons json_text), (fmap_cons quote_val).
    rewrite (fmap_cons json_text), join_comma_cons.
    rewrite <- (fmap_cons json_text), <- (fmap_cons quote_val).
    rewrite <- app_assoc, parse_kept_val by done.
    cbn [app skip_ws is_ws N.eqb Pos.eqb orb].
    replace (5 + (length L + 1 + f)) with (length L + 6 + f) by lia.
    rewrite IH by done. by rewrite <- app_assoc.
Qed.

Lemma parse_value_array_plain f q L rest :
  parse_value (S f) (91%N :: join_comma (json_text <$> (quote_val <$> q :: L)) ++ rest)
  = parse_elements f [] (join_comma (json_text <$> (quote_val <$> q :: L)) ++ rest).
Proof.
  assert (∃ r, join_comma (json_text <$> (quote_val <$> q :: L)) ++ rest = 123%N :: r)
    as [r ->]; [|apply parse_value_array].
  destruct q as [id c a].
  rewrite (fmap_cons quote_val), (fmap_cons json_text), quote_val_text_plain.
  destruct L; by eexists.
Qed.

Lemma as_quote_kept_val q : as_quote (kept_val q) = Some q.
Proof.
  destruct q as [id c a].
  destruct c as [| |[]| |?| |], a as [| |[]| |?| |]; reflexivity.
Qed.

Lemma as_quotes_kept_val L : as_quotes (JArr (kept_val <$> L)) = Some L.
Proof.
  unfold as_quotes. apply mapM_Some.
  induction L as [|q L IH]; constructor; [apply as_quote_kept_val|done].
Qed.

Lemma JSON_parse_plain_quotes L :
  forallb plain_quote L = true →
  JSON_parse (91%N :: join_comma (json_text <$> (quote_val <$> L)) ++ [93%N])
  = Some (JArr (kept_val <$> L)).
Proof.
  intros HL. unfold JSON_parse.
  destruct L as [|q L]; [done|].
  apply andb_true_iff in HL as [Hq HL].
  set (text := _ :: _ ++ _).
  rewrite (parse_value_enough (S (length L + 6 + 0)) text
             (JArr (kept_val <$> q :: L)) []); [done|].
  subst text. rewrite parse_value_array_plain.
  by rewrite parse_plain_elements.
Qed.

(** X17: a quote can have a field that is [undefined] (the response had no
    such key), [null], a boolean or a string.  For a list of such quotes,
    the JSON text of the list parses to the array of their objects without
    the undefined keys, and reading [_id], [content] and [author] off that
    array gives the same quotes in the same order. *)
Theorem persist_reads_back (L : list Quote) :
  forallb plain_quote L = true →
  ∃ text,
    JSON_stringify (quotes_val L) = Some text ∧
    JSON_parse text = Some (JArr (kept_val <$> L)) ∧
    as_quotes (JArr (kept_val <$> L)) = Some L.
Proof.
  intros HL. unfold quotes_val. rewrite JSON_stringify_array.
  eexists. split; [done|].
  split; [by apply JSON_parse_plain_quotes|apply as_quotes_kept_val].
Qed.

(** X18: what the effect wrote is what the next start shows.  After the
    effect has written such a list to a storage that takes the write, the
    first render of the next session has the same liked quotes. *)
Theorem restart_restores (L : list Quote) (st : Storage) (text : JsString) :
  forallb plain_quote L = true →
  JSON_stringify (quotes_val L) = Some text →
  blocked st = false → length text ≤ quota st →
  ∃ s, mount (persist_liked L st) = Some s ∧ likedQuotes s = L.
Proof.
  intros HL Htext Hopen Hroom.
  pose proof (JSON_parse_plain_quotes L HL) as Hparse.
  assert (text = 91%N :: join_comma (json_text <$> (quote_val <$> L)) ++ [93%N])
    as Etext.
  { unfold quotes_val in Htext. rewrite JSON_stringify_array in Htext.
    congruence. }
  rewrite <- Etext in Hparse.
  assert (likedQuotes_init (persist_liked L st) = JArr (kept_val <$> L)) as E.
  { unfold persist_liked, setItem, likedQuotes_init, getItem.
    rewrite Htext, Hopen, bool_decide_eq_true_2 by done. simpl.
    rewrite lookup_insert_eq.
    destruct text as [|c raw]; [done|]. by rewrite Hparse. }
  unfold mount. rewrite E, as_quotes_kept_val. by eexists.
Qed.

End PersistPlain.

Lemma persist_reads_back_witness :
  ∃ text,
    JSON_stringify (quotes_val [quote_3; quote_1]) = Some text ∧
    JSON_parse text = Some (JArr (kept_val <$> [quote_3; quote_1])) ∧
    as_quotes (JArr (kept_val <$> [quote_3; quote_1])) = Some [quote_3; quote_1].
Proof. apply persist_reads_back. reflexivity. Defined.

Lemma restart_restores_witness :
  ∃ s, mount (persist_liked [quote_3; quote_1] (mkStorage false 1000 ∅)) = Some s ∧
       likedQuotes s = [quote_3; quote_1].
Proof.
  eapply (restart_restores [quote_3; quote_1] (mkStorage false 1000 ∅)).
  - reflexivity.
  - reflexivity.
  - reflexivity.
  - vm_compute. lia.
Defined.
